(** * The YaST package bindings: callback bridge, selection and commit

    A shallow embedding of the parts of [Callbacks.cc], [Resolvable.cc] and
    [Package.cc] that turn libzypp's push-style reports into calls of the
    registered YCP handlers, decode the replies, and run a commit.

    C++ [int] is a 32-bit and [time_t] a 64-bit two's-complement integer;
    both are carried in [Z] and subtraction wraps explicitly.  Process-wide
    globals and every observable effect (handler invocation, log line,
    repository release, file-system call) live in one [World] that the
    operations thread through a state monad. *)

From stdpp Require Import base numbers strings list gmap.
From Stdlib Require Import ZArith Ascii.

Local Open Scope Z_scope.
#[local] Set Warnings "-register-all".

(** ** Machine integers *)

Definition wrap (bits z : Z) : Z :=
  (z + 2 ^ (bits - 1)) mod 2 ^ bits - 2 ^ (bits - 1).

(** [a - b] on [int]. *)
Definition int_sub (a b : Z) : Z := wrap 32 (a - b).

(** [a - b] on [time_t]. *)
Definition time_sub (a b : Z) : Z := wrap 64 (a - b).

(** [static const time_t callback_timeout = 3;] *)
Definition callback_timeout : Z := 3.

(** ** YCP values and the callback table *)

Inductive YCPValue :=
| YCPVoid
| YCPError (msg : string)
| YCPInteger (z : Z)
| YCPBoolean (b : bool)
| YCPString (s : string)
| YCPSymbol (s : string)
| YCPList (l : list YCPValue)
| YCPMap (m : list (YCPValue * YCPValue)).

(** One argument pushed with [addInt], [addStr] or [addBool]. *)
Inductive YCPArg :=
| AInt (z : Z)
| AStr (s : string)
| ABool (b : bool).

(** The members of [YCPCallbacks::CBid] the embedded receivers use. *)
Inductive CBid :=
| CB_SourceChange
| CB_StartPackage | CB_ProgressPackage | CB_DonePackage
| CB_StartProvide | CB_ProgressProvide | CB_DoneProvide
| CB_StartDownload | CB_ProgressDownload | CB_DoneDownload
| CB_ScriptProblem
| CB_MediaChange
| CB_SourceCreateError
| CB_SourceProbeStart | CB_SourceProbeEnd.

#[global] Instance CBid_eq_dec : EqDecision CBid.
Proof. solve_decision. Defined.

#[global] Instance YCPArg_eq_dec : EqDecision YCPArg.
Proof. solve_decision. Defined.

Inductive LogLevel := y2debug | y2milestone | y2error.

(** Everything the bridge does that an observer can see, in order. *)
Inductive Event :=
| EvCall (cb : CBid) (args : list YCPArg)
| EvLog (lvl : LogLevel) (fmt : string) (args : list YCPArg)
| EvSourceReleaseAll
| EvUnlink (path : string)
| EvSymlink (target link : string).

(** [ZyppRecipients::MediaChangeSensitivity] *)
Inductive MediaChangeSensitivity :=
| MEDIA_CHANGE_FULL
| MEDIA_CHANGE_DISABLE
| MEDIA_CHANGE_OPTIONALFILE.

#[global] Instance MediaChangeSensitivity_eq_dec : EqDecision MediaChangeSensitivity.
Proof. solve_decision. Defined.

(** A [zypp::Url] is carried as its text. *)
Abbreviation Url := string (only parsing).

(** ** The pool's status record *)

(** [zypp::ResStatus::TransactByValue], lowest authority first. *)
Inductive TransactByValue := SOLVER | APPL_LOW | APPL_HIGH | USER.

Inductive LockValue := NoLock | SoftLock | Taboo.

Record ResStatus := mkResStatus {
  transact : bool;
  authority : TransactByValue;
  lock : LockValue
}.

Inductive Kind := KProduct | KPatch | KPackage | KSelection | KPattern | KSrcPackage.

#[global] Instance Kind_eq_dec : EqDecision Kind.
Proof. solve_decision. Defined.

#[global] Instance TransactByValue_eq_dec : EqDecision TransactByValue.
Proof. solve_decision. Defined.

Record PoolItem := mkPoolItem {
  pi_kind : Kind;
  pi_name : string;
  pi_arch : string;
  pi_edition : string;
  pi_status : ResStatus
}.

(** ** Process state *)

Record World := mkWorld {
  _silent_probing : MediaChangeSensitivity;
  redirect_map : gmap Url (gmap N Url);
  last_reported_repo : Z;
  last_reported_mediumnr : Z;
  _last_error : option string;
  pool : list PoolItem;
  trace : list Event
}.

Definition set_silent_probing (s : MediaChangeSensitivity) (w : World) : World :=
  mkWorld s (redirect_map w) (last_reported_repo w) (last_reported_mediumnr w)
          (_last_error w) (pool w) (trace w).

Definition set_redirect_map (m : gmap Url (gmap N Url)) (w : World) : World :=
  mkWorld (_silent_probing w) m (last_reported_repo w) (last_reported_mediumnr w)
          (_last_error w) (pool w) (trace w).

Definition SetReportedSource (repo medium : Z) (w : World) : World :=
  mkWorld (_silent_probing w) (redirect_map w) repo medium
          (_last_error w) (pool w) (trace w).

Definition setLastError (e : string) (w : World) : World :=
  mkWorld (_silent_probing w) (redirect_map w) (last_reported_repo w)
          (last_reported_mediumnr w) (Some e) (pool w) (trace w).

Definition set_pool (p : list PoolItem) (w : World) : World :=
  mkWorld (_silent_probing w) (redirect_map w) (last_reported_repo w)
          (last_reported_mediumnr w) (_last_error w) p (trace w).

Definition emit (e : Event) (w : World) : World :=
  mkWorld (_silent_probing w) (redirect_map w) (last_reported_repo w)
          (last_reported_mediumnr w) (_last_error w) (pool w) (trace w ++ [e]).

(** The registered handlers: which kinds are set, and what the handler
    answers.  A handler may look at the session (for instance at how often
    it has been asked already). *)
Record YCPCallbacks := mkYCPCallbacks {
  cb_set : CBid → bool;
  cb_func : CBid → list YCPArg → World → YCPValue
}.

(** ** The state monad of the bridge *)

Definition M (A : Type) : Type := World → A * World.

#[global] Instance M_ret : MRet M := λ A a w, (a, w).
#[global] Instance M_bind : MBind M :=
  λ A B f m w, let '(a, w') := m w in f a w'.

Definition get {A} (f : World → A) : M A := λ w, (f w, w).
Definition modify (f : World → World) : M unit := λ w, (tt, f w).
Definition log (lvl : LogLevel) (fmt : string) (args : list YCPArg) : M unit :=
  modify (emit (EvLog lvl fmt args)).

(** How often the handler of kind [cb] has been invoked. *)
Fixpoint invocations (cb : CBid) (t : list Event) : nat :=
  match t with
  | [] => 0%nat
  | EvCall cb' _ :: t' =>
      if decide (cb' = cb) then S (invocations cb t') else invocations cb t'
  | _ :: t' => invocations cb t'
  end.

Definition is_log (e : Event) : bool :=
  match e with EvLog _ _ _ => true | _ => false end.

(** The log lines of a trace. *)
Definition log_lines (t : list Event) : list Event := List.filter is_log t.

(** ** What libzypp declares *)

(** Every three-way report of libzypp ([InstallResolvableReport],
    [RemoveResolvableReport], [DownloadResolvableReport],
    [DownloadProgressReport], [PatchScriptReport], [RepoCreateReport])
    declares the same [Action] enumeration. *)
Inductive Action := ABORT | RETRY | IGNORE.

#[global] Instance Action_eq_dec : EqDecision Action.
Proof. solve_decision. Defined.

Module InstallResolvableReport.
Inductive Error := NO_ERROR | NOT_FOUND | IO | INVALID.
Inductive RpmLevel := RPM | RPM_NODEPS | RPM_NODEPS_FORCE.

#[global] Instance Error_eq_dec : EqDecision Error.
Proof. solve_decision. Defined.

#[global] Instance RpmLevel_eq_dec : EqDecision RpmLevel.
Proof. solve_decision. Defined.

Definition Error_int (e : Error) : Z :=
  match e with NO_ERROR => 0 | NOT_FOUND => 1 | IO => 2 | INVALID => 3 end.

Definition RpmLevel_int (l : RpmLevel) : Z :=
  match l with RPM => 0 | RPM_NODEPS => 1 | RPM_NODEPS_FORCE => 2 end.
End InstallResolvableReport.

Module DownloadProgressReport.
Inductive Error := NO_ERROR | NOT_FOUND | IO | ACCESS_DENIED | ERROR.

Definition Error_int (e : Error) : Z :=
  match e with
  | NO_ERROR => 0 | NOT_FOUND => 1 | IO => 2 | ACCESS_DENIED => 3 | ERROR => 4
  end.
End DownloadProgressReport.

Module MediaChangeReport.
Inductive Action := ABORT | RETRY | EJECT | IGNORE_ID | CHANGE_URL | IGNORE.
Inductive Error := NO_ERROR | NOT_FOUND | IO | INVALID | WRONG | IO_SOFT.

#[global] Instance Action_eq_dec : EqDecision Action.
Proof. solve_decision. Defined.

#[global] Instance Error_eq_dec : EqDecision Error.
Proof. solve_decision. Defined.
End MediaChangeReport.

Module RepoCreateReport.
Inductive Error := NO_ERROR | NOT_FOUND | IO | INVALID | REJECTED | UNKNOWN.
End RepoCreateReport.

Module ProbeRepoReport.
Inductive Error := NO_ERROR | NOT_FOUND | IO | INVALID | UNKNOWN.
End ProbeRepoReport.

(** The base-class implementations the receivers fall back to, and the
    library functions they call.  They belong to libzypp, so the embedding
    takes them as given: [Url_parse s = None] stands for [zypp::Url(s)]
    throwing. *)
Record Zypp := mkZypp {
  InstallResolvableReport_progress : bool;
  InstallResolvableReport_problem : Action;
  RemoveResolvableReport_problem : Action;
  DownloadResolvableReport_progress : bool;
  DownloadResolvableReport_problem : Action;
  DownloadProgressReport_progress : bool;
  DownloadProgressReport_problem : Action;
  PatchScriptReport_problem : Action;
  RepoCreateReport_problem : Action;
  MediaChangeReport_requestMedia : MediaChangeReport.Action;
  Url_parse : string → option Url;
  strtonum : string → Z;
  Pathname_cat : string → string → string
}.

(** What a receiver is constructed with: the callback table, the library,
    and [PkgModuleFunctions::logFindAlias]. *)
Record Env := mkEnv {
  _ycpcb : YCPCallbacks;
  zypp : Zypp;
  logFindAlias : string → Z
}.

(** The package a report is about, with the attributes the receivers read;
    [res_ptr] is the identity that pointer comparison sees. *)
Record Resolvable := mkResolvable {
  res_ptr : N;
  res_name : string;
  res_filename : string;
  res_summary : string;
  res_installSize : Z;
  res_alias : string;
  res_mediaNr : Z
}.

(** ** [CB]: evaluating a registered handler *)

Section CB.
Context (env : Env).

(** [callback._set] for the callback of kind [cb]. *)
Definition ycpcb (cb : CBid) : bool := cb_set (_ycpcb env) cb.

(** The [evaluate...] members of [CB] are declared in [Callbacks.YCP.h]:
    they call the handler with the arguments pushed so far and convert its
    answer; an answer of another type than the one asked for yields the
    default value. *)

Definition evaluate (cb : CBid) (args : list YCPArg) : M YCPValue :=
  λ w, (cb_func (_ycpcb env) cb args w, emit (EvCall cb args) w).

Definition evaluateStr (cb : CBid) (args : list YCPArg) : M string :=
  v ← evaluate cb args;
  mret (match v with YCPString s => s | _ => "" end).

Definition evaluateBool (defaultValue : bool) (cb : CBid) (args : list YCPArg) : M bool :=
  v ← evaluate cb args;
  mret (match v with YCPBoolean b => b | _ => defaultValue end).

Definition evaluateSymbol (cb : CBid) (args : list YCPArg) : M string :=
  v ← evaluate cb args;
  mret (match v with YCPSymbol s => s | _ => "" end).

(** [if (callback._set) { ...; callback.evaluate(); }] *)
Definition notify (cb : CBid) (args : list YCPArg) : M unit :=
  if ycpcb cb then evaluate cb args ≫= λ _, mret tt else mret tt.

End CB.

(** ** InstallPkgReceive *)

Module InstallPkgReceive.
Import InstallResolvableReport.

Record t := mk {
  _last : option N;
  last_reported : Z;
  last_reported_time : Z
}.

Section receive.
Context (env : Env).

(** [mediaNr()] is unsigned; the assignment to [int media_nr] keeps its low
    32 bits, and it is the [int] that is compared, reported and stored. *)
Definition start (now : Z) (resolvable : Resolvable) (self : t) : M t :=
  let self := mk (_last self) 0 now in
  if decide (_last self = Some (res_ptr resolvable)) then mret self
  else
    let source_id := logFindAlias env (res_alias resolvable) in
    let media_nr := wrap 32 (res_mediaNr resolvable) in
    repo ← get last_reported_repo;
    medium ← get last_reported_mediumnr;
    (if bool_decide (source_id ≠ repo) || bool_decide (media_nr ≠ medium)
     then notify env CB_SourceChange [AInt source_id; AInt media_nr];;
          modify (SetReportedSource source_id media_nr)
     else mret tt);;
    notify env CB_StartPackage
      [AStr (res_name resolvable); AStr (res_filename resolvable);
       AStr (res_summary resolvable); AInt (res_installSize resolvable);
       ABool false];;
    mret (mk (Some (res_ptr resolvable)) (last_reported self) (last_reported_time self)).

Definition progress (now value : Z) (self : t) : M (bool * t) :=
  let current_time := now in
  if ycpcb env CB_ProgressPackage
     && ((5 <=? int_sub value (last_reported self))
         || (5 <=? int_sub (last_reported self) value)
         || (value =? 100)
         || (callback_timeout <=? time_sub current_time (last_reported_time self)))
  then
    res ← evaluateBool env false CB_ProgressPackage [AInt value];
    (if negb res
     then log y2milestone "Package installation callback returned abort" []
     else mret tt);;
    mret (res, mk (_last self) value current_time)
  else mret (InstallResolvableReport_progress (zypp env), self).

Definition problem (error : Error) (description : string) (level : RpmLevel)
    (self : t) : M (Action * t) :=
  if decide (level ≠ RPM_NODEPS_FORCE) then
    log y2milestone "Retrying installation problem with too low severity (%d)"
        [AInt (RpmLevel_int level)];;
    mret (ABORT, self)
  else
    let self := mk None (last_reported self) (last_reported_time self) in
    if ycpcb env CB_DonePackage then
      ret ← evaluateStr env CB_DonePackage [AInt (Error_int error); AStr description];
      if decide (ret = "R") then mret (RETRY, self)
      else if decide (ret = "C") then mret (ABORT, self)
      else mret (IGNORE, self)
    else mret (InstallResolvableReport_problem (zypp env), self).

Definition finish (error : Error) (reason : string) (level : RpmLevel) : M unit :=
  if bool_decide (error ≠ NO_ERROR) && bool_decide (level ≠ RPM_NODEPS_FORCE) then
    log y2milestone
        "Skipping finish due to retrying installation problem with too low severity (%d)"
        [AInt (RpmLevel_int level)]
  else if ycpcb env CB_DonePackage then
    evaluateStr env CB_DonePackage
      [AInt (if decide (level = RPM_NODEPS_FORCE) then Error_int error
             else Error_int NO_ERROR);
       AStr reason];;
    mret tt
  else mret tt.

End receive.
End InstallPkgReceive.

(** ** RemovePkgReceive *)

Module RemovePkgReceive.
Section receive.
Context (env : Env).

(** [error] is the value of the [RemoveResolvableReport::Error] enumerator. *)
Definition problem (error : Z) (description : string) : M Action :=
  if ycpcb env CB_DonePackage then
    ret ← evaluateStr env CB_DonePackage [AInt error; AStr description];
    if decide (ret = "R") then mret RETRY
    else if decide (ret = "C") then mret ABORT
    else mret IGNORE
  else mret (RemoveResolvableReport_problem (zypp env)).

Definition finish (error : Z) (reason : string) : M unit :=
  if ycpcb env CB_DonePackage then
    evaluateStr env CB_DonePackage [AInt error; AStr reason];;
    mret tt
  else mret tt.

End receive.
End RemovePkgReceive.

(** ** DownloadResolvableReceive *)

Module DownloadResolvableReceive.

(** The counters of the package stream; the delta and patch streams keep
    their own pairs, which the functions below do not touch. *)
Record t := mk {
  last_reported : Z;
  last_reported_time : Z
}.

Section receive.
Context (env : Env).

Definition progress (now value : Z) (self : t) : M (bool * t) :=
  let current_time := now in
  if ycpcb env CB_ProgressProvide
     && ((5 <=? int_sub value (last_reported self))
         || (5 <=? int_sub (last_reported self) value)
         || (value =? 100)
         || (callback_timeout <=? time_sub current_time (last_reported_time self)))
  then
    let self := mk value current_time in
    res ← evaluateBool env false CB_ProgressProvide [AInt value];
    mret (res, self)
  else mret (DownloadResolvableReport_progress (zypp env), self).

(** [error] is the value of the [DownloadResolvableReport::Error] enumerator. *)
Definition problem (resolvable : Resolvable) (error : Z) (description : string)
    : M Action :=
  if ycpcb env CB_DoneProvide then
    ret ← evaluateStr env CB_DoneProvide
            [AInt error; AStr description; AStr (res_name resolvable)];
    if decide (ret = "R") then mret RETRY
    else if decide (ret = "C") then mret ABORT
    else if decide (ret = "I") then mret IGNORE
    else mret (DownloadResolvableReport_problem (zypp env))
  else mret (DownloadResolvableReport_problem (zypp env)).

End receive.
End DownloadResolvableReceive.

(** ** DownloadProgressReceive *)

Module DownloadProgressReceive.
Import DownloadProgressReport.

Record t := mk {
  last_reported : Z;
  last_reported_time : Z
}.

Section receive.
Context (env : Env).

Definition start (now : Z) (file : Url) (localfile : string) (self : t) : M t :=
  let self := mk 0 now in
  notify env CB_StartDownload [AStr file; AStr localfile];;
  mret self.

(** [bps_avg] and [bps_current] are the rates after the [(long long)] cast. *)
Definition progress (now value : Z) (file : Url) (bps_avg bps_current : Z)
    (self : t) : M (bool * t) :=
  let current_time := now in
  if ycpcb env CB_ProgressDownload
     && ((5 <=? int_sub value (last_reported self))
         || (5 <=? int_sub (last_reported self) value)
         || (value =? 100)
         || (callback_timeout <=? time_sub current_time (last_reported_time self)))
  then
    let self := mk value current_time in
    res ← evaluateBool env true CB_ProgressDownload
            [AInt value; AInt bps_avg; AInt bps_current];
    mret (res, self)
  else mret (DownloadProgressReport_progress (zypp env), self).

Definition problem (file : Url) (error : Error) (description : string)
    : M Action :=
  if ycpcb env CB_DoneProvide then
    ret ← evaluateStr env CB_DoneProvide
            [AInt (Error_int error); AStr description; AStr file];
    log y2milestone "DoneProvide result: %s" [AStr ret];;
    if decide (ret = "R") then mret RETRY
    else if decide (ret = "C") then mret ABORT
    else if decide (ret = "I") then mret IGNORE
    else mret (DownloadProgressReport_problem (zypp env))
  else mret (DownloadProgressReport_problem (zypp env)).

Definition finish (file : Url) (error : Error) (reason : string) : M unit :=
  sp ← get _silent_probing;
  let err :=
    if bool_decide (sp = MEDIA_CHANGE_DISABLE)
       || bool_decide (sp = MEDIA_CHANGE_OPTIONALFILE)
    then NO_ERROR else error in
  notify env CB_DoneDownload [AInt (Error_int err); AStr reason].

End receive.
End DownloadProgressReceive.

(** ** ScriptExecReceive *)

Module ScriptExecReceive.
Section receive.
Context (env : Env).

Definition problem (description : string) : M Action :=
  if ycpcb env CB_ScriptProblem then
    ret ← evaluateStr env CB_ScriptProblem [AStr description];
    if decide (ret = "A") then mret ABORT
    else if decide (ret = "I") then mret IGNORE
    else if decide (ret = "R") then mret RETRY
    else
      log y2error "Unknown return value: %s" [AStr ret];;
      mret (PatchScriptReport_problem (zypp env))
  else mret (PatchScriptReport_problem (zypp env)).

End receive.
End ScriptExecReceive.

(** ** MediaChangeReceive *)

Module MediaChangeReceive.
Import MediaChangeReport.

Section receive.
Context (env : Env).

(** [url] and [dev_current] are reference parameters: the call returns
    their final values next to the action. *)
Definition requestMedia (url : Url) (mediumNr : N) (label : string)
    (error : Error) (description : string) (devices : list string)
    (dev_current : Z) : M (Action * Url * Z) :=
  sp ← get _silent_probing;
  if decide (sp = MEDIA_CHANGE_DISABLE) then mret (ABORT, url, dev_current)
  else if bool_decide (sp = MEDIA_CHANGE_OPTIONALFILE)
          && bool_decide (error = NOT_FOUND)
  then mret (ABORT, url, dev_current)
  else if ycpcb env CB_MediaChange then
    rm ← get redirect_map;
    let found :=
      match rm !! url with
      | Some media => media !! mediumNr
      | None => None
      end in
    match found with
    | Some r => log y2milestone "Using redirected URL %s, original URL: %s"
                    [AStr r; AStr url]
    | None => mret tt
    end;;
    let report_url := default url found in
    ret ← evaluateStr env CB_MediaChange
            [AStr description; AStr report_url; AStr label; AInt 0; AStr "";
             AInt (Z.of_N mediumNr); AStr ""; ABool false];
    if decide (ret = "") then mret (RETRY, url, dev_current)
    else if decide (ret = "I") then mret (IGNORE_ID, url, dev_current)
    else if decide (ret = "C") then mret (ABORT, url, dev_current)
    else if decide (ret = "E") then mret (EJECT, url, dev_current)
    else if bool_decide (1 < String.length ret)%nat
            && bool_decide (String.get 0 ret = Some "E"%char)
    then
      let dev_current := strtonum (zypp env) (String.substring 1 (String.length ret - 1) ret) in
      log y2milestone "Ejecting device %d" [AInt dev_current];;
      mret (EJECT, url, dev_current)
    else if decide (ret = "S") then mret (IGNORE, url, dev_current)
    else
      match Url_parse (zypp env) ret with
      | Some parsed =>
          let url := parsed in
          rm ← get redirect_map;
          let source_redir := default ∅ (rm !! url) in
          let source_redir := <[mediumNr := url]> source_redir in
          modify (set_redirect_map (<[url := source_redir]> rm));;
          log y2milestone "Source redirected to %s" [AStr ret];;
          mret (CHANGE_URL, url, dev_current)
      | None => mret (RETRY, url, dev_current)
      end
  else mret (MediaChangeReport_requestMedia (zypp env), url, dev_current).

End receive.
End MediaChangeReceive.

(** ** SourceCreateReceive *)

Module SourceCreateReceive.
Import RepoCreateReport.

Section receive.
Context (env : Env).

Definition CreateSrcErrorAsString (error : Error) : string :=
  match error with
  | NO_ERROR => "NO_ERROR"
  | NOT_FOUND => "NOT_FOUND"
  | IO => "IO"
  | INVALID => "INVALID"
  | REJECTED => "REJECTED"
  | UNKNOWN => "UNKNOWN"
  end.

Definition problem (url : Url) (error : Error) (description : string)
    : M Action :=
  if ycpcb env CB_SourceCreateError then
    result ← evaluateSymbol env CB_SourceCreateError
               [AStr url; AStr (CreateSrcErrorAsString error); AStr description];
    if decide (result = "ABORT") then mret ABORT
    else if decide (result = "RETRY") then mret RETRY
    else
      log y2error "Unexpected symbol '%s' returned from callback." [AStr result];;
      mret (RepoCreateReport_problem (zypp env))
  else mret (RepoCreateReport_problem (zypp env)).

End receive.
End SourceCreateReceive.

(** ** ProbeSourceReceive *)

Module ProbeSourceReceive.
Import ProbeRepoReport.

Section receive.
Context (env : Env).

Definition ProbeSrcErrorAsString (error : Error) : string :=
  match error with
  | NO_ERROR => "NO_ERROR"
  | NOT_FOUND => "NOT_FOUND"
  | IO => "IO"
  | INVALID => "INVALID"
  | UNKNOWN => "UNKNOWN"
  end.

Definition start (url : Url) : M unit :=
  modify (set_silent_probing MEDIA_CHANGE_DISABLE);;
  notify env CB_SourceProbeStart [AStr url].

Definition finish (url : Url) (error : Error) (reason : string) : M unit :=
  modify (set_silent_probing MEDIA_CHANGE_FULL);;
  notify env CB_SourceProbeEnd
    [AStr url; AStr (ProbeSrcErrorAsString error); AStr reason].

End receive.
End ProbeSourceReceive.

(** ** Resolvable.cc *)

(** [whoWantsIt]: the authority the bindings act with.  Its declaration is
    in [PkgModuleFunctions.h]; the builtin's documentation names it
    ("default is APPL_HIGH"). *)
Definition whoWantsIt : TransactByValue := APPL_HIGH.

Definition authority_rank (a : TransactByValue) : Z :=
  match a with SOLVER => 0 | APPL_LOW => 1 | APPL_HIGH => 2 | USER => 3 end.

Definition set_status (st : ResStatus) (it : PoolItem) : PoolItem :=
  mkPoolItem (pi_kind it) (pi_name it) (pi_arch it) (pi_edition it) st.

Section Resolvable.

(** [ResStatus::resetTransact] belongs to libzypp: given the authority that
    asks and a status, it answers whether the request was honoured and
    leaves the new status. *)
Context (resetTransact : TransactByValue → ResStatus → bool * ResStatus).

(** The body of the [for] loop over [byKindBegin(kind) .. byKindEnd(kind)]:
    the pool is walked in order and items of another kind are stepped over. *)
Fixpoint neutral_loop (name : string) (force : bool) (kind : Kind)
    (items : list PoolItem) (ret : bool) : bool * list PoolItem :=
  match items with
  | [] => (ret, [])
  | it :: rest =>
      if bool_decide (pi_kind it = kind)
         && (bool_decide (name = "") || bool_decide (pi_name it = name))
      then
        let '(ok, st) := resetTransact whoWantsIt (pi_status it) in
        let ret := if negb ok then false else ret in
        let '(ok_user, st) :=
          if force then resetTransact USER st else (true, st) in
        let ret := if force && negb ok_user then false else ret in
        let '(ret, rest') := neutral_loop name force kind rest ret in
        (ret, set_status st it :: rest')
      else
        let '(ret, rest') := neutral_loop name force kind rest ret in
        (ret, it :: rest')
  end.

(** The [if]/[else if] chain every builtin of the file opens with; [None]
    is its final [else]. *)
Definition kind_of_symbol (req_kind : string) : option Kind :=
  if decide (req_kind = "product") then Some KProduct
  else if decide (req_kind = "patch") then Some KPatch
  else if decide (req_kind = "package") then Some KPackage
  else if decide (req_kind = "selection") then Some KSelection
  else if decide (req_kind = "pattern") then Some KPattern
  else None.

Definition ResolvableNeutral (name_r kind_r : string) (force_r : bool)
    : M YCPValue :=
  let req_kind := kind_r in
  let name := name_r in
  let force := force_r in
  match kind_of_symbol req_kind with
  | None =>
      log y2error "Pkg::ResolvableNeutral: unknown symbol: %s" [AStr req_kind];;
      mret (YCPBoolean false)
  | Some kind =>
      items ← get pool;
      let '(ret, items') := neutral_loop name force kind items true in
      modify (set_pool items');;
      mret (YCPBoolean ret)
  end.

End Resolvable.

(** ** Package.cc *)

Record CommitResult := mkCommitResult {
  _result : Z;
  _errors : list PoolItem;
  _remaining : list PoolItem;
  _srcremaining : list PoolItem
}.

(** How [zypp_ptr()->commit(policy)] ends: it returns, or throws
    [zypp::target::TargetAbortedException], or throws another
    [zypp::Exception] (carried as its [ExceptionAsString] text). *)
Inductive CommitOutcome :=
| Committed (result : CommitResult)
| TargetAbortedException
| Exception (text : string).

(** A system call's result: success or the [errno] it left. *)
Inductive Syscall := Ok | Errno (e : Z).

Definition ENOENT : Z := 2.

Record Solvable := mkSolvable {
  sv_isPackage : bool;
  sv_name : string;
  sv_edition : string;
  sv_filenames : list string
}.

(** [referencePackage = None] is [zypp::sat::Solvable::noSolvable]. *)
Record Product := mkProduct {
  referencePackage : option Solvable
}.

(** [PkgFunctions] as the commit sees it: its members, the engine it
    drives and the system calls it makes. *)
Record PkgFunctions := mkPkgFunctions {
  base_product : option Product;
  _target_root : string;
  commit : Z → M CommitOutcome;
  sys_stat : string → Syscall;
  sys_unlink : string → Syscall;
  sys_symlink : string → string → Syscall
}.

(** [regex_match(s, what, "^/etc/products\\.d/(.*\\.prod)$")], returning
    [what[1]]. *)
Definition product_file_regex (s : string) : option string :=
  let dir := "/etc/products.d/" in
  let ext := ".prod" in
  if String.prefix dir s then
    let rest := String.substring (String.length dir)
                  (String.length s - String.length dir) s in
    if bool_decide (String.length ext ≤ String.length rest)%nat
       && bool_decide (String.substring (String.length rest - String.length ext)
                         (String.length ext) rest = ext)
    then Some rest else None
  else None.

(** The [for_] loop that stops at the first match. *)
Fixpoint find_product_file (files : list string) : string :=
  match files with
  | [] => ""
  | f :: rest =>
      match product_file_regex f with
      | Some what1 => what1
      | None => find_product_file rest
      end
  end.

Section Package.
Context (zy : Zypp) (pkg : PkgFunctions).

(** Modelled from the spec: [PkgFunctions::SourceReleaseAll] is defined in
    [Source.cc]; the commit releases all repository handles, which is
    recorded as one event. *)
Definition SourceReleaseAll : M unit := modify (emit EvSourceReleaseAll).

Definition CreateBaseProductSymlink : M bool :=
  match base_product pkg with
  | Some product =>
      log y2milestone "Creating symlink for the base product..." [];;
      match referencePackage product with
      | Some refsolvable =>
          if sv_isPackage refsolvable then
            log y2milestone "Found reference package for the base product: %s-%s"
                [AStr (sv_name refsolvable); AStr (sv_edition refsolvable)];;
            let files := sv_filenames refsolvable in
            log y2milestone "The reference package has %zd files"
                [AInt (Z.of_nat (length files))];;
            let product_file := find_product_file files in
            if decide (product_file = "") then
              log y2error "The product file has not been found" [];;
              mret false
            else
              log y2milestone "Found product file %s" [AStr product_file];;
              let base_link :=
                Pathname_cat zy (_target_root pkg) "/etc/products.d/baseproduct" in
              removed ←
                match sys_stat pkg base_link with
                | Ok =>
                    modify (emit (EvUnlink base_link));;
                    match sys_unlink pkg base_link with
                    | Ok => mret true
                    | Errno e =>
                        log y2error "Cannot remove base link file %s: %s"
                            [AStr base_link; AInt e];;
                        mret false
                    end
                | Errno e =>
                    if decide (e ≠ ENOENT) then
                      log y2error "Cannot stat %s file: %s" [AStr base_link; AInt e];;
                      mret false
                    else
                      log y2debug "Link %s does not exist" [AStr base_link];;
                      mret true
                end;
              if negb removed then mret false
              else
                modify (emit (EvSymlink product_file base_link));;
                match sys_symlink pkg product_file base_link with
                | Errno e =>
                    log y2error "Cannot create symlink %s -> %s: %s"
                        [AStr base_link; AStr product_file; AInt e];;
                    mret false
                | Ok =>
                    log y2milestone "Symlink %s -> %s has been created"
                        [AStr base_link; AStr product_file];;
                    mret true
                end
          else
            log y2error "The reference solvable is not a package" [];;
            mret false
      | None =>
          log y2milestone "The base product doesn't have any reference package" [];;
          mret true
      end
  | None =>
      log y2debug "A base product has not been added" [];;
      mret true
  end.

Definition remaining_entry (it : PoolItem) : YCPValue :=
  YCPMap
    [(YCPString "name", YCPString (pi_name it));
     (YCPString "kind",
      if decide (pi_kind it = KProduct) then YCPSymbol "product"
      else if decide (pi_kind it = KPattern) then YCPSymbol "pattern"
      else if decide (pi_kind it = KPatch) then YCPSymbol "patch"
      else YCPSymbol "package");
     (YCPString "arch", YCPString (pi_arch it));
     (YCPString "version", YCPString (pi_edition it))].

(** [media] is the 64-bit value of the [YCPInteger]; the assignment to
    [int medianr] keeps its low 32 bits. *)
Definition PkgCommit (media : Z) : M YCPValue :=
  let medianr := wrap 32 media in
  if medianr <? 0 then mret (YCPError "Bad args to Pkg::PkgCommit")
  else
    modify (SetReportedSource (-1) 1);;
    outcome ← commit pkg medianr;
    match outcome with
    | TargetAbortedException =>
        log y2milestone "Installation aborted by user" [];;
        mret (YCPList [YCPInteger (-1)])
    | Exception excpt =>
        log y2error "Pkg::Commit has failed: ZYpp::commit has failed" [];;
        modify (setLastError excpt);;
        mret YCPVoid
    | Committed result =>
        SourceReleaseAll;;
        CreateBaseProductSymlink;;
        let errlist := YCPList (map (λ it, YCPString (pi_name it)) (_errors result)) in
        let remlist := YCPList (map remaining_entry (_remaining result)) in
        let srclist :=
          YCPList (map (λ it, YCPString (pi_name it)) (_srcremaining result)) in
        mret (YCPList [YCPInteger (_result result); errlist; remlist; srclist])
    end.

End Package.

(** ** Specification-side notions *)

(** The throttle rule of the specification, in its words: report when the
    value moved by at least five points, or reached 100, or three seconds
    have passed since the last report. *)
Definition shouldReport (lastValue lastReportedTime newValue now : Z) : bool :=
  (5 <=? Z.abs (newValue - lastValue))
  || (newValue =? 100)
  || (3 <=? now - lastReportedTime).

(** How many values of a stream the rule lets through when no time passes. *)
Fixpoint reports (lastValue : Z) (values : list Z) : nat :=
  match values with
  | [] => 0%nat
  | v :: rest =>
      if shouldReport lastValue 0 v 0 then S (reports v rest)
      else reports lastValue rest
  end.

(** The engine delivering a stream of install progress values, all at the
    same instant [now]. *)
Fixpoint deliver (env : Env) (now : Z) (values : list Z)
    (self : InstallPkgReceive.t) : M InstallPkgReceive.t :=
  match values with
  | [] => mret self
  | v :: rest =>
      r ← InstallPkgReceive.progress env now v self;
      deliver env now rest r.2
  end.

Definition is_release (e : Event) : bool :=
  match e with EvSourceReleaseAll => true | _ => false end.

(** What the specification asks of one progress update on the stream that
    reports through [cb]: the handler is invoked exactly when [report]
    holds, with the new value as first argument; an invocation moves the
    throttle state to ([value], [now]); a suppressed update leaves the
    session and the receiver ([unchanged]) as they were. *)
Definition throttled (cb : CBid) (report : bool) (value now : Z)
    (before after : World) (last' time' : Z) (unchanged : Prop) : Prop :=
  (invocations cb (trace after) = S (invocations cb (trace before))
   ↔ report = true)
  ∧ (report = true →
     (∃ args more,
        trace after = trace before ++ EvCall cb (AInt value :: args) :: more)
     ∧ last' = value ∧ time' = now)
  ∧ (report = false → after = before ∧ unchanged).

(** ** Sample collaborators *)

(** A library whose base classes answer as libzypp's do (progress goes on,
    a problem aborts) and whose URL constructor accepts any text with a
    scheme separator. *)
Definition libzypp : Zypp :=
  mkZypp true ABORT ABORT true ABORT true ABORT ABORT ABORT
         MediaChangeReport.ABORT
         (λ s, match String.index 0 "://" s with Some _ => Some s | None => None end)
         (λ _, 0)
         String.append.

(** Every handler is registered and answers [v]. *)
Definition answering (v : YCPValue) : Env :=
  mkEnv (mkYCPCallbacks (λ _, true) (λ _ _ _, v)) libzypp (λ _, 0).

(** A fresh session. *)
Definition session (s : MediaChangeSensitivity) : World :=
  mkWorld s ∅ (-1) 1 None [] [].

Definition a_package : Resolvable :=
  mkResolvable 1 "yast2" "yast2.rpm" "YaST2" 4096 "main" 1.

(** A sample engine, after the specification's description of authority: a
    reset clears the transact flag and records who asked, unless the mark
    was set by a higher authority, in which case it is refused and nothing
    changes. *)
Definition resetTransact_by_authority (causer : TransactByValue)
    (st : ResStatus) : bool * ResStatus :=
  if transact st then
    if authority_rank causer <? authority_rank (authority st) then (false, st)
    else (true, mkResStatus false causer (lock st))
  else (true, st).

Definition a_pool : list PoolItem :=
  [mkPoolItem KPackage "vim" "x86_64" "7.2" (mkResStatus true USER NoLock);
   mkPoolItem KPackage "vim" "i586" "7.2" (mkResStatus true APPL_HIGH NoLock);
   mkPoolItem KPattern "vim" "noarch" "1" (mkResStatus true SOLVER NoLock);
   mkPoolItem KPackage "zsh" "x86_64" "4.3" (mkResStatus true APPL_LOW NoLock)].

Definition with_pool (p : list PoolItem) : World :=
  mkWorld MEDIA_CHANGE_FULL ∅ (-1) 1 None p [].

(** A target on which the commit ends as [outcome], after the engine has
    reported one package start. *)
Definition a_target (outcome : CommitOutcome) : PkgFunctions :=
  mkPkgFunctions
    (Some (mkProduct (Some (mkSolvable true "openSUSE-release" "11.1"
                              ["/etc/SuSE-release"; "/etc/products.d/openSUSE.prod"]))))
    "/mnt"
    (λ _ w, (outcome, emit (EvCall CB_StartPackage []) w))
    (λ _, Errno ENOENT) (λ _, Ok) (λ _ _, Ok).

(** No handler is registered. *)
Definition unregistered : Env :=
  mkEnv (mkYCPCallbacks (λ _, false) (λ _ _ _, YCPVoid)) libzypp (λ _, 0).

(** The redirect recorded for medium [mediumNr] of [url], if any. *)
Definition redirected (m : gmap Url (gmap N Url)) (url : Url) (mediumNr : N)
    : option Url :=
  m !! url ≫= (.!! mediumNr).

(** ** More of Callbacks.cc *)

(** [RemovePkgReceive::start] and [RemovePkgReceive::progress].  The
    library's [RemoveResolvableReport::progress] is the answer when no
    handler is registered. *)
Module RemovePkgProgress.
Section receive.
Context (env : Env) (RemoveResolvableReport_progress : bool).

Definition start (resolvable : Resolvable) : M unit :=
  notify env CB_StartPackage
    [AStr (res_name resolvable); AStr ""; AStr ""; AInt (-1); ABool true].

Definition progress (value : Z) : M bool :=
  if ycpcb env CB_ProgressPackage then
    res ← evaluateBool env false CB_ProgressPackage [AInt value];
    (if negb res
     then log y2milestone "Package remove callback returned abort" []
     else mret tt);;
    mret res
  else mret RemoveResolvableReport_progress.

(** The engine delivering a stream of removal progress values. *)
Fixpoint deliver (values : list Z) : M unit :=
  match values with
  | [] => mret tt
  | v :: rest => progress v;; deliver rest
  end.

End receive.
End RemovePkgProgress.

(** ** More of Resolvable.cc *)

Section SoftLock.

(** [ResStatus::setSoftLock] belongs to libzypp. *)
Context (setSoftLock : TransactByValue → ResStatus → bool * ResStatus).

Fixpoint softlock_loop (name : string) (kind : Kind) (items : list PoolItem)
    (ret : bool) : bool * list PoolItem :=
  match items with
  | [] => (ret, [])
  | it :: rest =>
      if bool_decide (pi_kind it = kind)
         && (bool_decide (name = "") || bool_decide (pi_name it = name))
      then
        let '(ok, st) := setSoftLock whoWantsIt (pi_status it) in
        let ret := if negb ok then false else ret in
        let '(ret, rest') := softlock_loop name kind rest ret in
        (ret, set_status st it :: rest')
      else
        let '(ret, rest') := softlock_loop name kind rest ret in
        (ret, it :: rest')
  end.

Definition ResolvableSetSoftLock (name_r kind_r : string) : M YCPValue :=
  let req_kind := kind_r in
  let name := name_r in
  match kind_of_symbol req_kind with
  | None =>
      log y2error "Pkg::ResolvableSetSoftLock: unknown symbol: %s" [AStr req_kind];;
      mret (YCPBoolean false)
  | Some kind =>
      items ← get pool;
      let '(ret, items') := softlock_loop name kind items true in
      modify (set_pool items');;
      mret (YCPBoolean ret)
  end.

End SoftLock.

(** What [zypp::asKind<zypp::Patch>] gives access to. *)
Record Patch := mkPatch {
  patch_id : string;
  patch_category : string;
  patch_interactive : bool;
  patch_reboot_needed : bool;
  patch_affects_pkg_manager : bool
}.

(** What a builtin hands back: a value, or [YCPError(message, value)]. *)
Inductive YCPResult :=
| YCPReturn (v : YCPValue)
| YCPErrorWith (message : string) (v : YCPValue).

Section Patches.

(** The engine: whether a status says "needed", the patch behind a pool
    item (none when the item is not a patch), [ResStatus::setTransact], and
    the text [operator<<] prints for an item. *)
Context (isNeeded : ResStatus → bool)
        (asPatch : PoolItem → option Patch)
        (setTransact : bool → TransactByValue → ResStatus → bool * ResStatus)
        (asString : PoolItem → string).

(** The body of the loop of [ResolvableSetPatches] for the pool item [i];
    [selected_patches] is a [long long]. *)
Definition patches_body (kind : string) (preselect : bool) (i : PoolItem)
    (selected_patches : Z) : M (Z * PoolItem) :=
  if isNeeded (pi_status i) then
    match asPatch i with
    | Some pch =>
        if negb (bool_decide (patch_category pch = "optional")) then
          if bool_decide (kind = "all")
             || (bool_decide (kind = "interactive") && patch_interactive pch)
             || (bool_decide (kind = "affects_pkg_manager")
                 && patch_affects_pkg_manager pch)
             || (bool_decide (kind = "reboot_needed") && patch_reboot_needed pch)
          then
            if negb preselect then
              mret (wrap 64 (selected_patches + 1), i)
            else
              let '(ok, st) := setTransact true whoWantsIt (pi_status i) in
              if ok then
                log y2milestone "Setting '%s' to transact"
                    [AStr (asString (set_status st i))];;
                mret (wrap 64 (selected_patches + 1), set_status st i)
              else mret (selected_patches, set_status st i)
          else
            log y2milestone "Ignoring patch id: %s" [AStr (patch_id pch)];;
            mret (selected_patches, i)
        else
          log y2milestone "Ignoring optional patch (id): %s"
              [AStr (patch_id pch)];;
          mret (selected_patches, i)
    | None => mret (selected_patches, i)
    end
  else mret (selected_patches, i).

(** The loop over the whole pool. *)
Fixpoint patches_loop (kind : string) (preselect : bool) (items : list PoolItem)
    (selected_patches : Z) : M (Z * list PoolItem) :=
  match items with
  | [] => mret (selected_patches, [])
  | i :: rest =>
      r ← patches_body kind preselect i selected_patches;
      r' ← patches_loop kind preselect rest r.1;
      mret (r'.1, r.2 :: r'.2)
  end.

Definition ResolvableSetPatches (kind_r : string) (preselect : bool)
    : M YCPResult :=
  let kind := kind_r in
  if bool_decide (kind ≠ "all") && bool_decide (kind ≠ "interactive")
     && bool_decide (kind ≠ "reboot_needed")
     && bool_decide (kind ≠ "affects_pkg_manager")
  then
    mret (YCPErrorWith
            ("Pkg::ResolvablePreselectPatches: Wrong parameter '" +:+ kind
             +:+ "', use: `all, `interactive, `reboot_needed or `affects_pkg_manager")
            (YCPInteger 0))
  else
    items ← get pool;
    r ← patches_loop kind preselect items 0;
    modify (set_pool r.2);;
    mret (YCPReturn (YCPInteger r.1)).

Definition ResolvableCountPatches (kind_r : string) : M YCPResult :=
  ResolvableSetPatches kind_r false.

Definition ResolvablePreselectPatches (kind_r : string) : M YCPResult :=
  ResolvableSetPatches kind_r true.

(** The patches a call with [kind] is about: needed, not optional, and of
    the asked sort. *)
Definition eligible (kind : string) (i : PoolItem) : bool :=
  isNeeded (pi_status i)
  && match asPatch i with
     | Some pch =>
         negb (bool_decide (patch_category pch = "optional"))
         && (bool_decide (kind = "all")
             || (bool_decide (kind = "interactive") && patch_interactive pch)
             || (bool_decide (kind = "affects_pkg_manager")
                 && patch_affects_pkg_manager pch)
             || (bool_decide (kind = "reboot_needed") && patch_reboot_needed pch))
     | None => false
     end.

End Patches.

(** ** More of Package.cc *)

(** [join( lines_r, sep_r )] *)
Definition join (lines_r : list string) (sep_r : string) : string :=
  match lines_r with
  | [] => ""
  | first :: rest => fold_left (λ ret it, ret +:+ (sep_r +:+ it)) rest first
  end.

Definition is_filesystem (e : Event) : bool :=
  match e with EvUnlink _ | EvSymlink _ _ => true | _ => false end.

(** *** Selectables of kind package *)

(** [zypp::ui::Selectable::Fate] *)
Inductive Fate := TO_DELETE | UNMODIFIED | TO_INSTALL.

(** [zypp::ui::Status] *)
Inductive ui_Status :=
| S_Protected | S_Taboo | S_Del | S_Update | S_Install
| S_AutoDel | S_AutoUpdate | S_AutoInstall | S_KeepInstalled | S_NoInst.

#[global] Instance Fate_eq_dec : EqDecision Fate.
Proof. solve_decision. Defined.

#[global] Instance ui_Status_eq_dec : EqDecision ui_Status.
Proof. solve_decision. Defined.

(** The [zypp::Package] behind a pool item, with the attributes that
    Package.cc reads; [pkg_mediaNr] is an [unsigned]. *)
Record Package := mkPackage {
  pkg_name : string;
  pkg_version : string;
  pkg_release : string;
  pkg_arch : string;
  pkg_mediaNr : Z;
  pkg_downloadSize : Z;
  pkg_installSize : Z;
  pkg_alias : string
}.

(** A selectable of kind package as the queries see it.  An object that is
    [None] is a null pool item ([hasCandidateObj()] and [hasInstalledObj()]
    are [is_Some]).  The proxy hands out no null selectable, which
    [PkgMediaSizesOrCount] relies on; the [s &&] and [!s] guards of the
    other loops are therefore not carried. *)
Record Selectable := mkSelectable {
  sel_fate : Fate;
  sel_modifiedBy : TransactByValue;
  sel_status : ui_Status;
  sel_candidateObj : option Package;
  sel_installedObj : option Package
}.

Definition pkg2list (list_ : list YCPValue) (item : option Package)
    (names_only : bool) : list YCPValue :=
  match item with
  | None => list_
  | Some pkg =>
      if names_only then list_ ++ [YCPString (pkg_name pkg)]
      else
        let fullname := pkg_name pkg in
        let fullname := fullname +:+ (" " +:+ pkg_version pkg) in
        let fullname := fullname +:+ (" " +:+ pkg_release pkg) in
        let fullname := fullname +:+ (" " +:+ pkg_arch pkg) in
        list_ ++ [YCPString fullname]
  end.

Fixpoint FilterPackages_loop (byAuto byApp byUser names_only : bool)
    (proxy : list Selectable) (packages : list YCPValue) : list YCPValue :=
  match proxy with
  | [] => packages
  | s :: rest =>
      let packages :=
        if bool_decide (sel_fate s = TO_INSTALL) then
          let by_ := sel_modifiedBy s in
          if (byAuto && bool_decide (by_ = SOLVER))
             || (byApp && (bool_decide (by_ = APPL_HIGH)
                           || bool_decide (by_ = APPL_LOW)))
             || (byUser && bool_decide (by_ = USER))
          then pkg2list packages (sel_candidateObj s) names_only
          else packages
        else packages in
      FilterPackages_loop byAuto byApp byUser names_only rest packages
  end.

Definition FilterPackages (y_byAuto y_byApp y_byUser y_names_only : bool)
    (proxy : list Selectable) : YCPValue :=
  YCPList (FilterPackages_loop y_byAuto y_byApp y_byUser y_names_only proxy []).

Fixpoint GetPackages_loop (which : string) (names_only : bool)
    (proxy : list Selectable) (packages : list YCPValue) : YCPValue :=
  match proxy with
  | [] => YCPList packages
  | s :: rest =>
      if decide (which = "installed") then
        GetPackages_loop which names_only rest
          (if bool_decide (is_Some (sel_installedObj s))
           then pkg2list packages (sel_installedObj s) names_only else packages)
      else if decide (which = "selected") then
        GetPackages_loop which names_only rest
          (if bool_decide (sel_fate s = TO_INSTALL)
              && bool_decide (is_Some (sel_candidateObj s))
           then pkg2list packages (sel_candidateObj s) names_only else packages)
      else if decide (which = "removed") then
        GetPackages_loop which names_only rest
          (if bool_decide (sel_fate s = TO_DELETE)
              && bool_decide (is_Some (sel_installedObj s))
           then pkg2list packages (sel_installedObj s) names_only else packages)
      else if decide (which = "available") then
        GetPackages_loop which names_only rest
          (if bool_decide (is_Some (sel_candidateObj s))
           then pkg2list packages (sel_candidateObj s) names_only else packages)
      else if decide (which = "locked") then
        GetPackages_loop which names_only rest
          (if bool_decide (sel_status s = S_Protected)
           then pkg2list packages (sel_installedObj s) names_only else packages)
      else if decide (which = "taboo") then
        GetPackages_loop which names_only rest
          (if bool_decide (sel_status s = S_Taboo)
           then pkg2list packages (sel_candidateObj s) names_only else packages)
      else YCPError "Wrong parameter for Pkg::GetPackages"
  end.

Definition GetPackages (y_which : string) (y_names_only : bool)
    (proxy : list Selectable) : YCPValue :=
  GetPackages_loop y_which y_names_only proxy [].

(** *** Packages per medium *)

(** A [YRepo] as [PkgMediaSizesOrCount] reads it. *)
Record YRepo := mkYRepo {
  repo_enabled : bool;
  repo_isDeleted : bool;
  repo_alias : string
}.

(** The indices of the enabled, not deleted repositories, counting from
    [index]. *)
Fixpoint source_ids (repos : list YRepo) (index : Z) : list Z :=
  match repos with
  | [] => []
  | repo :: rest =>
      if negb (repo_enabled repo) || repo_isDeleted repo
      then source_ids rest (index + 1)
      else index :: source_ids rest (index + 1)
  end.

(** [std::map<RepoId, std::vector<ByteCount>>] as the list of its entries
    in key order.  [result_at id f result] is what [f] applied to
    [result[id]] leaves: [operator[]] creates the empty vector for a key
    that is not there yet. *)
Fixpoint result_at (id : Z) (f : list Z → list Z) (result : list (Z * list Z))
    : list (Z * list Z) :=
  match result with
  | [] => [(id, f [])]
  | (k, v) :: rest =>
      if id <? k then (id, f []) :: (k, v) :: rest
      else if id =? k then (k, f v) :: rest
      else (k, v) :: result_at id f rest
  end.

(** The vector update for a package on [medium] (at least 1):
    [add_count] is an [int] computed from unsigned operands, the vector is
    padded with zeros up to the medium and its entry grows by [size], a
    64-bit count.  The padding is skipped, and the C++ index is out of
    range, only for a medium of 2^31 or more. *)
Definition add_to_medium (medium size : Z) (ref : list Z) : list Z :=
  let add_count := wrap 32 (medium - 1 - Z.of_nat (length ref) + 1) in
  let ref :=
    if 0 <? add_count then ref ++ replicate (Z.to_nat add_count) 0 else ref in
  alter (λ x, wrap 64 (x + size)) (Z.to_nat (medium - 1)) ref.

Section MediaSizes.

(** [repos] is the member of [PkgFunctions]; [logFindRepository] and the
    text of a YCP value come from elsewhere. *)
Context (repos : list YRepo)
        (logFindRepository : Z → option YRepo)
        (toString : YCPValue → string).

Definition init_source (st : list (Z * list Z) * gmap string Z) (id : Z)
    : list (Z * list Z) * gmap string Z :=
  match logFindRepository id with
  | None => st
  | Some repo => (result_at id (λ _, []) st.1, <[repo_alias repo := id]> st.2)
  end.

(** The body of the loop over the package selectables.  A lookup of an
    alias that [source_map] does not know gives the id 0. *)
Definition count_package (sizes download_size : bool)
    (source_map : gmap string Z) (result : list (Z * list Z)) (s : Selectable)
    : list (Z * list Z) :=
  if bool_decide (sel_fate s = TO_INSTALL) then
    match sel_candidateObj s with
    | None => result
    | Some pkg =>
        let medium := pkg_mediaNr pkg in
        let medium := if medium =? 0 then 1 else medium in
        if 0 <? medium then
          let size :=
            if sizes
            then (if download_size then pkg_downloadSize pkg
                  else pkg_installSize pkg)
            else 1 in
          result_at (default 0 (source_map !! pkg_alias pkg))
            (add_to_medium medium size) result
        else result
    end
  else result.

Definition PkgMediaSizesOrCount (sizes download_size : bool)
    (proxy : list Selectable) : M YCPValue :=
  let st := foldl init_source ([], ∅) (source_ids repos 0) in
  let result := foldl (count_package sizes download_size st.2) st.1 proxy in
  let res := YCPList (map (λ entry, YCPList (map YCPInteger entry.2)) result) in
  log y2milestone "Pkg::%s result: %s"
      [AStr (if sizes
             then (if download_size then "PkgMediaPackageSizes"
                   else "PkgMediaSizes")
             else "PkgMediaCount");
       AStr (toString res)];;
  mret res.

Definition PkgMediaCount (proxy : list Selectable) : M YCPValue :=
  PkgMediaSizesOrCount false false proxy.

End MediaSizes.

(** *** Resetting the selection *)

Section Reset.
Context (resetTransact : TransactByValue → ResStatus → bool * ResStatus).

(** [ResetAllKind<T>]: the proxy is carried as the list of [theObj()] of its
    selectables, and the selectables of kind [T] are those whose object is
    of that kind. *)
Definition ResetAllKind (kind : Kind) (level : TransactByValue)
    (proxy : list PoolItem) : list PoolItem :=
  map (λ s, if decide (pi_kind s = kind)
            then set_status (resetTransact level (pi_status s)).2 s
            else s) proxy.

Definition ResetAll (level : TransactByValue) (proxy : list PoolItem)
    : list PoolItem :=
  let proxy := ResetAllKind KPackage level proxy in
  let proxy := ResetAllKind KPattern level proxy in
  let proxy := ResetAllKind KPatch level proxy in
  let proxy := ResetAllKind KProduct level proxy in
  ResetAllKind KSrcPackage level proxy.

Definition PkgReset (proxy : list PoolItem) : YCPValue * list PoolItem :=
  (YCPBoolean true, ResetAll USER proxy).

Definition PkgApplReset (proxy : list PoolItem) : YCPValue * list PoolItem :=
  (YCPBoolean true, ResetAll whoWantsIt proxy).

End Reset.

(** *** Licences *)

(** What [Selectable::get(name)] shows of a selectable to the licence
    builtins: [toInstall()], [hasLicenceConfirmed()], and
    [licenseToConfirm()] of the candidate when that is a package.
    [setLicenceConfirmed()] sets what [hasLicenceConfirmed()] reads. *)
Record LicenceView := mkLicenceView {
  lv_toInstall : bool;
  lv_hasLicenceConfirmed : bool;
  lv_licenseToConfirm : option string
}.

Definition PkgGetLicenseToConfirm (selectables : gmap string LicenceView)
    (package : string) : string :=
  let pkgname := package in
  if negb (bool_decide (pkgname = "")) then
    match selectables !! pkgname with
    | Some s =>
        if lv_toInstall s && negb (lv_hasLicenceConfirmed s) then
          match lv_licenseToConfirm s with
          | Some licence => licence
          | None => ""
          end
        else ""
    | None => ""
    end
  else "".

(** The result [YCPMap], by package name. *)
Fixpoint PkgGetLicensesToConfirm_loop (selectables : gmap string LicenceView)
    (packages : list string) (ret : gmap string string) : gmap string string :=
  match packages with
  | [] => ret
  | package :: rest =>
      let license := PkgGetLicenseToConfirm selectables package in
      PkgGetLicensesToConfirm_loop selectables rest
        (if negb (bool_decide (license = "")) then <[package := license]> ret
         else ret)
  end.

Definition PkgGetLicensesToConfirm (selectables : gmap string LicenceView)
    (packages : list string) : gmap string string :=
  PkgGetLicensesToConfirm_loop selectables packages ∅.

Definition PkgMarkLicenseConfirmed (selectables : gmap string LicenceView)
    (package : string) : bool * gmap string LicenceView :=
  let pkgname := package in
  if negb (bool_decide (pkgname = "")) then
    match selectables !! pkgname with
    | Some s =>
        if lv_toInstall s && negb (lv_hasLicenceConfirmed s) then
          (true,
           <[pkgname := mkLicenceView (lv_toInstall s) true
                          (lv_licenseToConfirm s)]> selectables)
        else (false, selectables)
    | None => (false, selectables)
    end
  else (false, selectables).

(** The session [w] with the events [added] appended to its trace. *)
Definition logged (w : World) (added : list Event) : World :=
  mkWorld (_silent_probing w) (redirect_map w) (last_reported_repo w)
          (last_reported_mediumnr w) (_last_error w) (pool w)
          (trace w ++ added).

(** A sample engine for patches: a status that does not transact yet is
    "needed", every pool item of kind patch is a security patch (an
    optional one when its name is "fonts") that needs a reboot, and every
    request to schedule is honoured. *)
Definition sample_isNeeded (st : ResStatus) : bool := negb (transact st).

Definition sample_asPatch (i : PoolItem) : option Patch :=
  if decide (pi_kind i = KPatch) then
    Some (mkPatch (pi_name i)
            (if decide (pi_name i = "fonts") then "optional" else "security")
            false true false)
  else None.

Definition sample_setTransact (toTransact : bool) (causer : TransactByValue)
    (st : ResStatus) : bool * ResStatus :=
  (true, mkResStatus toTransact causer (lock st)).

Definition patch_pool : list PoolItem :=
  [mkPoolItem KPatch "kernel" "noarch" "1" (mkResStatus false SOLVER NoLock);
   mkPoolItem KPatch "fonts" "noarch" "2" (mkResStatus false SOLVER NoLock);
   mkPoolItem KPackage "vim" "x86_64" "7.2" (mkResStatus false SOLVER NoLock);
   mkPoolItem KPatch "glibc" "noarch" "3" (mkResStatus true USER NoLock)].

#[global] Instance Syscall_eq_dec : EqDecision Syscall.
Proof. solve_decision. Defined.

(** ** Proof automation *)

(** Unfolds the monad and the [CB] helpers. *)
Ltac run :=
  repeat (unfold mbind, mret, M_bind, M_ret, get, modify, log, notify,
            evaluateStr, evaluateBool, evaluateSymbol, evaluate in *;
          simpl in *).

(** Collects the events a computation appended to the trace. *)
Ltac appended :=
  eexists; split;
  [ rewrite <- ?(assoc_L (++)); reflexivity
  | repeat constructor ].

(** * Properties *)

(** ** Traces and machine arithmetic *)

Lemma invocations_app cb t1 t2 :
  invocations cb (t1 ++ t2) = (invocations cb t1 + invocations cb t2)%nat.
Proof.
  induction t1 as [|e t1 IH]; simpl; [done|].
  destruct e; try done. case_decide; simpl; by rewrite IH.
Qed.

Lemma invocations_call cb t args :
  invocations cb (t ++ [EvCall cb args]) = S (invocations cb t).
Proof. rewrite invocations_app. simpl. rewrite decide_True by done. lia. Qed.

Lemma invocations_log cb t lvl fmt args :
  invocations cb (t ++ [EvLog lvl fmt args]) = invocations cb t.
Proof. rewrite invocations_app. simpl. lia. Qed.

Lemma wrap_small bits z :
  0 < bits → - 2 ^ (bits - 1) ≤ z < 2 ^ (bits - 1) → wrap bits z = z.
Proof.
  intros Hb Hz. unfold wrap.
  assert (2 ^ bits = 2 * 2 ^ (bits - 1)) as ->.
  { rewrite <- Z.pow_succ_r by lia. f_equal. lia. }
  rewrite Z.mod_small; lia.
Qed.

(** The condition the three [progress] methods test is the rule of the
    specification as long as the subtractions do not overflow. *)
Lemma throttle_condition last last_time value now :
  Z.abs (value - last) < 2 ^ 31 →
  Z.abs (now - last_time) < 2 ^ 63 →
  (5 <=? int_sub value last) || (5 <=? int_sub last value) || (value =? 100)
  || (callback_timeout <=? time_sub now last_time)
  = shouldReport last last_time value now.
Proof.
  intros Hv Ht. unfold int_sub, time_sub, shouldReport, callback_timeout.
  rewrite !wrap_small by lia.
  destruct (Z.leb_spec 5 (value - last)), (Z.leb_spec 5 (last - value)),
    (Z.leb_spec 5 (Z.abs (value - last))); simpl; try done; lia.
Qed.

(** ** Media change requests *)

(** C4: with [_silent_probing] at [MEDIA_CHANGE_DISABLE], or at
    [MEDIA_CHANGE_OPTIONALFILE] for a [NOT_FOUND] error, [requestMedia]
    returns [ABORT], leaves the session as it is and so does not invoke the
    [MediaChange] handler: its invocation count does not move. *)
Theorem requestMedia_suppressed env url mediumNr label error description
    devices dev_current w :
  _silent_probing w = MEDIA_CHANGE_DISABLE
  ∨ (_silent_probing w = MEDIA_CHANGE_OPTIONALFILE
     ∧ error = MediaChangeReport.NOT_FOUND) →
  let r := MediaChangeReceive.requestMedia env url mediumNr label error
             description devices dev_current w in
  r = ((MediaChangeReport.ABORT, url, dev_current), w)
  ∧ invocations CB_MediaChange (trace r.2) = invocations CB_MediaChange (trace w).
Proof.
  intros H. cut (MediaChangeReceive.requestMedia env url mediumNr label error
                   description devices dev_current w
                 = ((MediaChangeReport.ABORT, url, dev_current), w)).
  { intros E. simpl. by rewrite E. }
  unfold MediaChangeReceive.requestMedia. run.
  destruct H as [H | [H ->]]; rewrite H; done.
Qed.

Lemma requestMedia_suppressed_witness :
  let r := MediaChangeReceive.requestMedia (answering (YCPString "C")) "cd:///" 2%N
             "main" MediaChangeReport.WRONG "insert medium 2" ["/dev/sr0"] 0
             (session MEDIA_CHANGE_DISABLE) in
  r = ((MediaChangeReport.ABORT, "cd:///", 0), session MEDIA_CHANGE_DISABLE)
  ∧ invocations CB_MediaChange (trace r.2)
    = invocations CB_MediaChange (trace (session MEDIA_CHANGE_DISABLE)).
Proof.
  apply (requestMedia_suppressed (answering (YCPString "C")) "cd:///" 2%N "main"
           MediaChangeReport.WRONG "insert medium 2" ["/dev/sr0"] 0
           (session MEDIA_CHANGE_DISABLE)).
  left. reflexivity.
Defined.

(** Once prompting is on and a handler is registered, every request asks
    the handler exactly once. *)
Lemma requestMedia_prompts env url mediumNr label error description devices
    dev_current w :
  _silent_probing w = MEDIA_CHANGE_FULL →
  ycpcb env CB_MediaChange = true →
  invocations CB_MediaChange
    (trace (MediaChangeReceive.requestMedia env url mediumNr label error
              description devices dev_current w).2)
  = S (invocations CB_MediaChange (trace w)).
Proof.
  intros Hsp Hset. unfold MediaChangeReceive.requestMedia. run.
  rewrite Hsp, Hset. simpl.
  destruct (redirect_map w !! url) as [media|]; simpl;
    [destruct (media !! mediumNr); simpl|];
    repeat (first [case_decide | case_match]; simpl);
    rewrite ?invocations_log, ?invocations_call, ?invocations_log; done.
Qed.

(** ** Source probing *)

(** C10: a probe start sets [_silent_probing] to [MEDIA_CHANGE_DISABLE];
    a probe finish sets it to [MEDIA_CHANGE_FULL] whatever it was before,
    also across a whole start/finish pair; after a finish a media-change
    request reaches a registered handler again. *)
Theorem probe_sets_silent_probing env url error reason w :
  _silent_probing (ProbeSourceReceive.start env url w).2 = MEDIA_CHANGE_DISABLE
  ∧ _silent_probing (ProbeSourceReceive.finish env url error reason w).2
    = MEDIA_CHANGE_FULL
  ∧ _silent_probing
      (ProbeSourceReceive.finish env url error reason
         (ProbeSourceReceive.start env url w).2).2 = MEDIA_CHANGE_FULL
  ∧ (ycpcb env CB_MediaChange = true →
     ∀ u mediumNr label err description devices dev,
       let after := (ProbeSourceReceive.finish env url error reason w).2 in
       invocations CB_MediaChange
         (trace (MediaChangeReceive.requestMedia env u mediumNr label err
                   description devices dev after).2)
       = S (invocations CB_MediaChange (trace after))).
Proof.
  assert (∀ w', _silent_probing
                  (ProbeSourceReceive.finish env url error reason w').2
                = MEDIA_CHANGE_FULL) as Hfin.
  { intros w'. unfold ProbeSourceReceive.finish. run.
    destruct (ycpcb env CB_SourceProbeEnd); done. }
  split_and!.
  - unfold ProbeSourceReceive.start. run.
    destruct (ycpcb env CB_SourceProbeStart); done.
  - apply Hfin.
  - apply Hfin.
  - intros Hset *. simpl. apply requestMedia_prompts; [apply Hfin | done].
Qed.

Lemma probe_sets_silent_probing_witness :
  _silent_probing
    (ProbeSourceReceive.finish (answering YCPVoid) "http://example.com/repo"
       ProbeRepoReport.NOT_FOUND "no repository"
       (ProbeSourceReceive.start (answering YCPVoid) "http://example.com/repo"
          (session MEDIA_CHANGE_OPTIONALFILE)).2).2 = MEDIA_CHANGE_FULL.
Proof.
  apply (probe_sets_silent_probing (answering YCPVoid) "http://example.com/repo"
           ProbeRepoReport.NOT_FOUND "no repository"
           (session MEDIA_CHANGE_OPTIONALFILE)).
Defined.

(** ** Download finish *)

(** C9: while [_silent_probing] is [MEDIA_CHANGE_DISABLE] or
    [MEDIA_CHANGE_OPTIONALFILE], the download finish hands [NO_ERROR] to the
    registered [DoneDownload] handler whatever error it was given. *)
Theorem download_finish_hides_error env file error reason w :
  _silent_probing w = MEDIA_CHANGE_DISABLE
  ∨ _silent_probing w = MEDIA_CHANGE_OPTIONALFILE →
  ycpcb env CB_DoneDownload = true →
  DownloadProgressReceive.finish env file error reason w
  = (tt, emit (EvCall CB_DoneDownload
                 [AInt (DownloadProgressReport.Error_int
                          DownloadProgressReport.NO_ERROR);
                  AStr reason]) w).
Proof.
  intros Hsp Hset. unfold DownloadProgressReceive.finish. run.
  rewrite Hset. destruct Hsp as [-> | ->]; done.
Qed.

Lemma download_finish_hides_error_witness :
  DownloadProgressReceive.finish (answering YCPVoid) "http://example.com/content"
    DownloadProgressReport.IO "connection reset" (session MEDIA_CHANGE_OPTIONALFILE)
  = (tt, emit (EvCall CB_DoneDownload [AInt 0; AStr "connection reset"])
           (session MEDIA_CHANGE_OPTIONALFILE)).
Proof.
  apply (download_finish_hides_error (answering YCPVoid)
           "http://example.com/content" DownloadProgressReport.IO
           "connection reset" (session MEDIA_CHANGE_OPTIONALFILE)).
  - right. reflexivity.
  - reflexivity.
Defined.

(** ** Package installation problems *)

(** C3: a problem reported below [RPM_NODEPS_FORCE] returns [ABORT] without
    invoking any handler, and a finish at such a level with an error other
    than [NO_ERROR] invokes none either, in particular not [DonePackage]. *)
Theorem install_problem_low_severity env error description level self w :
  InstallResolvableReport.RpmLevel_int level
  < InstallResolvableReport.RpmLevel_int InstallResolvableReport.RPM_NODEPS_FORCE →
  let r := InstallPkgReceive.problem env error description level self w in
  r.1 = (ABORT, self)
  ∧ (∀ cb, invocations cb (trace r.2) = invocations cb (trace w))
  ∧ ∀ err reason w',
      err ≠ InstallResolvableReport.NO_ERROR →
      ∀ cb, invocations cb
              (trace (InstallPkgReceive.finish env err reason level w').2)
            = invocations cb (trace w').
Proof.
  intros Hlevel.
  assert (level ≠ InstallResolvableReport.RPM_NODEPS_FORCE) as Hne.
  { intros ->. lia. }
  simpl. split_and!.
  - unfold InstallPkgReceive.problem. rewrite decide_True by done. done.
  - intros cb. unfold InstallPkgReceive.problem. rewrite decide_True by done.
    run. apply invocations_log.
  - intros err reason w' Herr cb. unfold InstallPkgReceive.finish.
    rewrite !bool_decide_eq_true_2 by done. run. apply invocations_log.
Qed.

Lemma install_problem_low_severity_witness :
  (InstallPkgReceive.problem (answering (YCPString "R"))
     InstallResolvableReport.INVALID "rpm failed" InstallResolvableReport.RPM_NODEPS
     (InstallPkgReceive.mk (Some 1%N) 40 1000) (session MEDIA_CHANGE_FULL)).1
  = (ABORT, InstallPkgReceive.mk (Some 1%N) 40 1000).
Proof.
  apply (install_problem_low_severity (answering (YCPString "R"))
           InstallResolvableReport.INVALID "rpm failed"
           InstallResolvableReport.RPM_NODEPS
           (InstallPkgReceive.mk (Some 1%N) 40 1000) (session MEDIA_CHANGE_FULL)).
  simpl. lia.
Defined.

(** ** Progress throttling *)

Lemma install_progress_step env now value l last last_time w :
  Z.abs (value - last) < 2 ^ 31 →
  Z.abs (now - last_time) < 2 ^ 63 →
  ycpcb env CB_ProgressPackage = true →
  InstallPkgReceive.progress env now value
    (InstallPkgReceive.mk l last last_time) w
  = if shouldReport last last_time value now then
      let called := emit (EvCall CB_ProgressPackage [AInt value]) w in
      let res := match cb_func (_ycpcb env) CB_ProgressPackage [AInt value] w with
                 | YCPBoolean b => b
                 | _ => false
                 end in
      ((res, InstallPkgReceive.mk l value now),
       if res then called
       else emit (EvLog y2milestone
                    "Package installation callback returned abort" []) called)
    else ((InstallResolvableReport_progress (zypp env),
           InstallPkgReceive.mk l last last_time), w).
Proof.
  intros Hv Ht Hset. unfold InstallPkgReceive.progress. simpl.
  rewrite Hset, throttle_condition by done. simpl.
  destruct (shouldReport last last_time value now); [|done].
  run. by destruct (cb_func _ _ _ _) as [| | |[]| | | |].
Qed.

Lemma provide_progress_step env now value last last_time w :
  Z.abs (value - last) < 2 ^ 31 →
  Z.abs (now - last_time) < 2 ^ 63 →
  ycpcb env CB_ProgressProvide = true →
  DownloadResolvableReceive.progress env now value
    (DownloadResolvableReceive.mk last last_time) w
  = if shouldReport last last_time value now then
      ((match cb_func (_ycpcb env) CB_ProgressProvide [AInt value] w with
        | YCPBoolean b => b
        | _ => false
        end, DownloadResolvableReceive.mk value now),
       emit (EvCall CB_ProgressProvide [AInt value]) w)
    else ((DownloadResolvableReport_progress (zypp env),
           DownloadResolvableReceive.mk last last_time), w).
Proof.
  intros Hv Ht Hset. unfold DownloadResolvableReceive.progress. simpl.
  rewrite Hset, throttle_condition by done. simpl.
  by destruct (shouldReport last last_time value now).
Qed.

Lemma download_progress_step env now value file bps_avg bps_current
    last last_time w :
  Z.abs (value - last) < 2 ^ 31 →
  Z.abs (now - last_time) < 2 ^ 63 →
  ycpcb env CB_ProgressDownload = true →
  DownloadProgressReceive.progress env now value file bps_avg bps_current
    (DownloadProgressReceive.mk last last_time) w
  = if shouldReport last last_time value now then
      ((match cb_func (_ycpcb env) CB_ProgressDownload
                [AInt value; AInt bps_avg; AInt bps_current] w with
        | YCPBoolean b => b
        | _ => true
        end, DownloadProgressReceive.mk value now),
       emit (EvCall CB_ProgressDownload
               [AInt value; AInt bps_avg; AInt bps_current]) w)
    else ((DownloadProgressReport_progress (zypp env),
           DownloadProgressReceive.mk last last_time), w).
Proof.
  intros Hv Ht Hset. unfold DownloadProgressReceive.progress. simpl.
  rewrite Hset, throttle_condition by done. simpl.
  by destruct (shouldReport last last_time value now).
Qed.

Lemma throttled_suppressed cb value now w last time (unchanged : Prop) :
  unchanged → throttled cb false value now w w last time unchanged.
Proof. intros H. split_and!; [split; [lia|done] | done | done]. Qed.

Lemma throttled_reported cb value now w after args more (unchanged : Prop) :
  trace after = trace w ++ EvCall cb (AInt value :: args) :: more →
  invocations cb more = 0%nat →
  throttled cb true value now w after value now unchanged.
Proof.
  intros Ht Hmore. split_and!; [|by eauto|done].
  split; [done|intros _]. rewrite Ht, invocations_app. simpl.
  rewrite decide_True by done. lia.
Qed.

(** C2: for the package install, package provide and file download streams
    with a registered progress handler, an update invokes the handler
    exactly when the value moved by five or more, or is 100, or three
    seconds have passed; an invocation stores the value and the current
    time, a suppressed update changes nothing.  The two hypotheses keep the
    subtractions of the C++ code within [int] and [time_t]. *)
Theorem progress_throttle env now value last last_time w :
  Z.abs (value - last) < 2 ^ 31 →
  Z.abs (now - last_time) < 2 ^ 63 →
  let report := shouldReport last last_time value now in
  (ycpcb env CB_ProgressPackage = true →
   ∀ l, let self := InstallPkgReceive.mk l last last_time in
        let r := InstallPkgReceive.progress env now value self w in
        throttled CB_ProgressPackage report value now w r.2
          (InstallPkgReceive.last_reported r.1.2)
          (InstallPkgReceive.last_reported_time r.1.2) (r.1.2 = self))
  ∧ (ycpcb env CB_ProgressProvide = true →
     let self := DownloadResolvableReceive.mk last last_time in
     let r := DownloadResolvableReceive.progress env now value self w in
     throttled CB_ProgressProvide report value now w r.2
       (DownloadResolvableReceive.last_reported r.1.2)
       (DownloadResolvableReceive.last_reported_time r.1.2) (r.1.2 = self))
  ∧ (ycpcb env CB_ProgressDownload = true →
     ∀ file bps_avg bps_current,
       let self := DownloadProgressReceive.mk last last_time in
       let r := DownloadProgressReceive.progress env now value file bps_avg
                  bps_current self w in
       throttled CB_ProgressDownload report value now w r.2
         (DownloadProgressReceive.last_reported r.1.2)
         (DownloadProgressReceive.last_reported_time r.1.2) (r.1.2 = self)).
Proof.
  intros Hv Ht report. subst report. split_and!.
  - intros Hset l. simpl. rewrite install_progress_step by done.
    destruct (shouldReport last last_time value now); simpl;
      [|by apply throttled_suppressed].
    destruct (match cb_func _ _ _ _ with YCPBoolean b => b | _ => false end).
    + by eapply (throttled_reported _ _ _ _ _ [] []).
    + by eapply (throttled_reported _ _ _ _ _ [] [_]); simpl;
        rewrite <- ?(assoc_L (++)).
  - intros Hset. simpl. rewrite provide_progress_step by done.
    destruct (shouldReport last last_time value now); simpl;
      [|by apply throttled_suppressed].
    by eapply (throttled_reported _ _ _ _ _ [] []).
  - intros Hset file bps_avg bps_current. simpl.
    rewrite download_progress_step by done.
    destruct (shouldReport last last_time value now); simpl;
      [|by apply throttled_suppressed].
    by eapply (throttled_reported _ _ _ _ _ [_; _] []).
Qed.

Lemma progress_throttle_witness :
  let r := DownloadResolvableReceive.progress (answering (YCPBoolean true)) 1001 42
             (DownloadResolvableReceive.mk 40 1000) (session MEDIA_CHANGE_FULL) in
  throttled CB_ProgressProvide (shouldReport 40 1000 42 1001) 42 1001
    (session MEDIA_CHANGE_FULL) r.2
    (DownloadResolvableReceive.last_reported r.1.2)
    (DownloadResolvableReceive.last_reported_time r.1.2)
    (r.1.2 = DownloadResolvableReceive.mk 40 1000).
Proof.
  apply (progress_throttle (answering (YCPBoolean true)) 1001 42 40 1000
           (session MEDIA_CHANGE_FULL)).
  - simpl. lia.
  - simpl. lia.
  - reflexivity.
Defined.

(** ** A whole progress stream *)

Lemma shouldReport_no_time_passage last now value :
  shouldReport last now value now = shouldReport last 0 value 0.
Proof. unfold shouldReport. by rewrite Z.sub_diag. Qed.

Lemma install_start_resets env now resolvable self w :
  ∃ l, (InstallPkgReceive.start env now resolvable self w).1
       = InstallPkgReceive.mk l 0 now.
Proof.
  unfold InstallPkgReceive.start. simpl. case_decide; [by eexists|].
  run. repeat (case_match; simpl); by eexists.
Qed.

(** Delivered at one instant, a stream invokes the handler once per value
    that the rule lets through. *)
Lemma deliver_reports env now values :
  ycpcb env CB_ProgressPackage = true →
  ∀ l last w,
    Z.abs last < 2 ^ 30 →
    Forall (λ v, Z.abs v < 2 ^ 30) values →
    invocations CB_ProgressPackage
      (trace (deliver env now values (InstallPkgReceive.mk l last now) w).2)
    = (invocations CB_ProgressPackage (trace w) + reports last values)%nat.
Proof.
  intros Hset. induction values as [|v values IH]; intros l last w Hlast Hall.
  { simpl. lia. }
  apply Forall_cons in Hall as [Hv Hall].
  cbn [deliver reports]. unfold mbind, M_bind.
  rewrite install_progress_step by (done || lia).
  rewrite shouldReport_no_time_passage.
  destruct (shouldReport last 0 v 0); simpl; [|by apply IH].
  destruct (match cb_func _ _ _ _ with YCPBoolean b => b | _ => false end);
    rewrite IH by done; simpl;
    rewrite ?invocations_log, invocations_call; lia.
Qed.




(** ** Decoding a handler's reply *)

Lemma log_lines_app t1 t2 : log_lines (t1 ++ t2) = log_lines t1 ++ log_lines t2.
Proof. apply List.filter_app. Qed.

Lemma log_lines_call t cb args : log_lines (t ++ [EvCall cb args]) = log_lines t.
Proof. rewrite log_lines_app. simpl. by rewrite app_nil_r. Qed.

Lemma log_lines_log t lvl fmt args :
  log_lines (t ++ [EvLog lvl fmt args]) = log_lines t ++ [EvLog lvl fmt args].
Proof. by rewrite log_lines_app. Qed.

(** C6 as the code has it, for a registered handler whose reply is none of
    the adapter's tokens: package install and package remove decode it as
    [IGNORE] and log nothing; the resolvable download returns the library's
    default and logs nothing; the file download returns the library's
    default after the log line it writes for every reply; script execution
    and source creation log an error naming the reply and return the
    library's default. *)
Theorem unrecognized_reply env w reply :
  (ycpcb env CB_DonePackage = true →
   (∀ args w', cb_func (_ycpcb env) CB_DonePackage args w' = YCPString reply) →
   reply ≠ "R" → reply ≠ "C" →
   (∀ error description self,
      let r := InstallPkgReceive.problem env error description
                 InstallResolvableReport.RPM_NODEPS_FORCE self w in
      r.1.1 = IGNORE ∧ log_lines (trace r.2) = log_lines (trace w))
   ∧ (∀ error description,
        let r := RemovePkgReceive.problem env error description w in
        r.1 = IGNORE ∧ log_lines (trace r.2) = log_lines (trace w)))
  ∧ (ycpcb env CB_DoneProvide = true →
     (∀ args w', cb_func (_ycpcb env) CB_DoneProvide args w' = YCPString reply) →
     reply ≠ "R" → reply ≠ "C" → reply ≠ "I" →
     (∀ resolvable error description,
        let r := DownloadResolvableReceive.problem env resolvable error
                   description w in
        r.1 = DownloadResolvableReport_problem (zypp env)
        ∧ log_lines (trace r.2) = log_lines (trace w))
     ∧ (∀ file error description,
          let r := DownloadProgressReceive.problem env file error description w in
          r.1 = DownloadProgressReport_problem (zypp env)
          ∧ log_lines (trace r.2)
            = log_lines (trace w)
              ++ [EvLog y2milestone "DoneProvide result: %s" [AStr reply]]))
  ∧ (ycpcb env CB_ScriptProblem = true →
     (∀ args w', cb_func (_ycpcb env) CB_ScriptProblem args w' = YCPString reply) →
     reply ≠ "A" → reply ≠ "I" → reply ≠ "R" →
     ∀ description,
       let r := ScriptExecReceive.problem env description w in
       r.1 = PatchScriptReport_problem (zypp env)
       ∧ log_lines (trace r.2)
         = log_lines (trace w)
           ++ [EvLog y2error "Unknown return value: %s" [AStr reply]])
  ∧ (ycpcb env CB_SourceCreateError = true →
     (∀ args w', cb_func (_ycpcb env) CB_SourceCreateError args w'
                 = YCPSymbol reply) →
     reply ≠ "ABORT" → reply ≠ "RETRY" →
     ∀ url error description,
       let r := SourceCreateReceive.problem env url error description w in
       r.1 = RepoCreateReport_problem (zypp env)
       ∧ log_lines (trace r.2)
         = log_lines (trace w)
           ++ [EvLog y2error "Unexpected symbol '%s' returned from callback."
                 [AStr reply]]).
Proof.
  split_and!.
  - intros Hset Hreply HR HC. split.
    + intros error description self. simpl.
      unfold InstallPkgReceive.problem. rewrite decide_False by naive_solver.
      rewrite Hset. run. rewrite Hreply, !decide_False by done.
      simpl. by rewrite log_lines_call.
    + intros error description. simpl. unfold RemovePkgReceive.problem.
      rewrite Hset. run. rewrite Hreply, !decide_False by done.
      simpl. by rewrite log_lines_call.
  - intros Hset Hreply HR HC HI. split.
    + intros resolvable error description. simpl.
      unfold DownloadResolvableReceive.problem.
      rewrite Hset. run. rewrite Hreply, !decide_False by done.
      simpl. by rewrite log_lines_call.
    + intros file error description. simpl.
      unfold DownloadProgressReceive.problem.
      rewrite Hset. run. rewrite Hreply, !decide_False by done.
      simpl. by rewrite log_lines_log, log_lines_call.
  - intros Hset Hreply HA HI HR description. simpl.
    unfold ScriptExecReceive.problem.
    rewrite Hset. run. rewrite Hreply, !decide_False by done.
    simpl. by rewrite log_lines_log, log_lines_call.
  - intros Hset Hreply HA HR url error description. simpl.
    unfold SourceCreateReceive.problem.
    rewrite Hset. run. rewrite Hreply, !decide_False by done.
    simpl. by rewrite log_lines_log, log_lines_call.
Qed.

Lemma unrecognized_reply_witness :
  let r := ScriptExecReceive.problem (answering (YCPString "X")) "script failed"
             (session MEDIA_CHANGE_FULL) in
  r.1 = PatchScriptReport_problem (zypp (answering (YCPString "X")))
  ∧ log_lines (trace r.2)
    = log_lines (trace (session MEDIA_CHANGE_FULL))
      ++ [EvLog y2error "Unknown return value: %s" [AStr "X"]].
Proof.
  apply (unrecognized_reply (answering (YCPString "X"))
           (session MEDIA_CHANGE_FULL) "X").
  - reflexivity.
  - intros args w'. reflexivity.
  - discriminate.
  - discriminate.
  - discriminate.
Defined.

(** C6 as stated fails: the package install adapter, asked at
    [RPM_NODEPS_FORCE] and answered "X", returns [IGNORE], which is not the
    library's default action, and writes no log line. *)
Lemma install_unrecognized_reply_ignored :
  let env := answering (YCPString "X") in
  let r := InstallPkgReceive.problem env InstallResolvableReport.INVALID
             "rpm failed" InstallResolvableReport.RPM_NODEPS_FORCE
             (InstallPkgReceive.mk (Some 1%N) 0 0) (session MEDIA_CHANGE_FULL) in
  r.1.1 = IGNORE
  ∧ r.1.1 ≠ InstallResolvableReport_problem (zypp env)
  ∧ log_lines (trace r.2) = [].
Proof. vm_compute. split_and!; [done | discriminate | done]. Qed.

(** ** Media redirection *)

(** A reply that is none of the tokens the code tests for is taken as a
    URL: if it parses, the redirect map gains an entry under the parsed URL
    itself and the request returns [CHANGE_URL]; if it does not, the request
    returns [RETRY] and the map is as before.  An entry under the URL the
    request came with is not touched. *)
Lemma requestMedia_url_reply env url mediumNr label error description devices
    dev_current w ret :
  _silent_probing w = MEDIA_CHANGE_FULL →
  ycpcb env CB_MediaChange = true →
  (∀ args w', cb_func (_ycpcb env) CB_MediaChange args w' = YCPString ret) →
  ret ≠ "" → ret ≠ "I" → ret ≠ "C" → ret ≠ "E" → ret ≠ "S" →
  String.get 0 ret ≠ Some "E"%char →
  let r := MediaChangeReceive.requestMedia env url mediumNr label error
             description devices dev_current w in
  match Url_parse (zypp env) ret with
  | Some parsed =>
      r.1 = (MediaChangeReport.CHANGE_URL, parsed, dev_current)
      ∧ redirect_map r.2
        = <[parsed := <[mediumNr := parsed]> (default ∅ (redirect_map w !! parsed))]>
            (redirect_map w)
      ∧ (url ≠ parsed → redirect_map r.2 !! url = redirect_map w !! url)
  | None =>
      r.1 = (MediaChangeReport.RETRY, url, dev_current)
      ∧ redirect_map r.2 = redirect_map w
  end.
Proof.
  intros Hsp Hset Hreply H0 HI HC HE HS Hfirst. simpl.
  unfold MediaChangeReceive.requestMedia. run. rewrite Hsp, Hset. simpl.
  assert (∀ (o : option string) w0,
            redirect_map
              (match o with
               | Some r => λ w, (tt, emit (EvLog y2milestone
                   "Using redirected URL %s, original URL: %s"
                   [AStr r; AStr url]) w)
               | None => λ w, (tt, w)
               end w0).2 = redirect_map w0) as Hlog.
  { by intros [] ?. }
  destruct (match redirect_map w !! url with
            | Some media => media !! mediumNr
            | None => None
            end) as [r|]; simpl;
    rewrite Hreply, !decide_False by done;
    rewrite (bool_decide_eq_false_2 (String.get 0 ret = _)) by done;
    rewrite andb_false_r;
    destruct (Url_parse (zypp env) ret) as [parsed|]; simpl;
    split_and?; try done;
    intros Hne; by rewrite lookup_insert_ne.
Qed.

(** C1, at a concrete request: medium 1 of "cd:///" is asked for and the
    handler answers "http://example.com/repo".  The request returns
    [CHANGE_URL] with the new URL, but the redirect map has no entry under
    "cd:///": the entry is stored under the new URL, mapping it to itself,
    so a later request for "cd:///" still presents "cd:///" to the user. *)
Theorem requestMedia_redirect_keyed_by_new_url :
  let env := answering (YCPString "http://example.com/repo") in
  let r := MediaChangeReceive.requestMedia env "cd:///" 1%N "main"
             MediaChangeReport.WRONG "wrong medium" [] 0
             (session MEDIA_CHANGE_FULL) in
  r.1 = (MediaChangeReport.CHANGE_URL, "http://example.com/repo", 0)
  ∧ redirect_map r.2 !! "cd:///" = None
  ∧ redirect_map r.2 !! "http://example.com/repo"
    = Some {[1%N := "http://example.com/repo"]}
  ∧ ∃ more,
      trace (MediaChangeReceive.requestMedia env "cd:///" 1%N "main"
               MediaChangeReport.WRONG "wrong medium" [] 0 r.2).2
      = trace r.2
        ++ EvCall CB_MediaChange
             [AStr "wrong medium"; AStr "cd:///"; AStr "main"; AInt 0; AStr "";
              AInt 1; AStr ""; ABool false] :: more.
Proof. vm_compute. split_and!; [done..|by eexists]. Qed.

(** ** Neutralising resolvables *)

Section Neutral.
Context (resetTransact : TransactByValue → ResStatus → bool * ResStatus).

(** The status [ResolvableNeutral] leaves on an item it selects. *)
Lemma neutral_loop_items name force kind items :
  ∀ ret,
    (neutral_loop resetTransact name force kind items ret).2
    = map (λ it,
             if bool_decide (pi_kind it = kind)
                && (bool_decide (name = "") || bool_decide (pi_name it = name))
             then
               let st := (resetTransact whoWantsIt (pi_status it)).2 in
               set_status (if force then (resetTransact USER st).2 else st) it
             else it) items.
Proof.
  induction items as [|it items IH]; intros ret; [done|].
  cbn [neutral_loop map].
  destruct (bool_decide (pi_kind it = kind)
            && (bool_decide (name = "") || bool_decide (pi_name it = name))).
  - destruct (resetTransact whoWantsIt (pi_status it)) as [ok st] eqn:E1. simpl.
    destruct force.
    + destruct (resetTransact USER st) as [ok' st'] eqn:E2.
      specialize (IH (if true && negb ok' then false
                      else if negb ok then false else ret)).
      destruct (neutral_loop _ _ _ _ _ _). simpl in *. by rewrite IH.
    + specialize (IH (if false && negb true then false
                      else if negb ok then false else ret)).
      destruct (neutral_loop _ _ _ _ _ _). simpl in *. by rewrite IH.
  - specialize (IH ret). destruct (neutral_loop _ _ _ _ _ _).
    simpl in *. by rewrite IH.
Qed.

(** What the bindings rely on in the engine: a reset asked by a lower
    authority than the one that set the mark is refused and changes
    nothing. *)
Hypothesis reset_refused :
  ∀ causer st,
    transact st = true →
    authority_rank causer < authority_rank (authority st) →
    resetTransact causer st = (false, st).

(** A reset asked by the authority of the mark, or a higher one, leaves
    the transact flag cleared. *)
Hypothesis reset_clears :
  ∀ causer st,
    authority_rank (authority st) ≤ authority_rank causer →
    transact (resetTransact causer st).2 = false.

(** C7: [ResolvableNeutral] keeps the pool's items in place and touches
    only the status of those of the given kind whose name matches (every
    item of the kind when the name is empty).  Without [force] it asks the
    engine at the application authority only: the transact flag of a
    selected item is cleared unless the mark is the user's, and a selected
    item marked by the user is left exactly as it was.  With [force] it
    asks at the user's authority as well, and every selected item ends with
    the transact flag cleared. *)
Theorem ResolvableNeutral_authority name kind_r force kind w :
  kind_of_symbol kind_r = Some kind →
  let r := ResolvableNeutral resetTransact name kind_r force w in
  ∀ i it,
    pool w !! i = Some it →
    ∃ it',
      pool r.2 !! i = Some it'
      ∧ pi_kind it' = pi_kind it ∧ pi_name it' = pi_name it
      ∧ (¬ (pi_kind it = kind ∧ (name = "" ∨ pi_name it = name)) → it' = it)
      ∧ (pi_kind it = kind → name = "" ∨ pi_name it = name →
         if force then transact (pi_status it') = false
         else (authority (pi_status it) ≠ USER → transact (pi_status it') = false)
              ∧ (transact (pi_status it) = true →
                 authority (pi_status it) = USER → it' = it)).
Proof.
  intros Hkind r i it Hit. subst r. unfold ResolvableNeutral.
  rewrite Hkind. run.
  pose proof (neutral_loop_items name force kind (pool w) true) as Hitems.
  destruct (neutral_loop resetTransact name force kind (pool w) true)
    as [ret items'].
  simpl in *. subst items'.
  rewrite list_lookup_fmap, Hit. simpl. eexists. split; [done|].
  destruct (bool_decide (pi_kind it = kind)) eqn:Ek;
    [apply bool_decide_eq_true in Ek | apply bool_decide_eq_false in Ek]; simpl;
    [|tauto].
  destruct (decide (name = "" ∨ pi_name it = name)) as [Hsel | Hno].
  2: { rewrite (proj2 (orb_false_iff _ _)); [tauto|].
       split; apply bool_decide_eq_false; tauto. }
  assert (bool_decide (name = "") || bool_decide (pi_name it = name) = true)
    as -> by (apply orb_true_iff; destruct Hsel;
              [left | right]; by apply bool_decide_eq_true).
  split_and!; [done | done | tauto |]. intros _ _. destruct force.
  - apply reset_clears. by destruct (authority _).
  - split.
    + intros Hauth. apply reset_clears. by destruct (authority (pi_status it)).
    + intros Htr Hauth. rewrite reset_refused by (by rewrite ?Hauth).
      by destruct it.
Qed.

End Neutral.

Lemma ResolvableNeutral_authority_witness :
  let user_vim :=
    mkPoolItem KPackage "vim" "x86_64" "7.2" (mkResStatus true USER NoLock) in
  let r := ResolvableNeutral resetTransact_by_authority "vim" "package" false
             (with_pool a_pool) in
  ∃ it',
    pool r.2 !! 0%nat = Some it'
    ∧ pi_kind it' = pi_kind user_vim ∧ pi_name it' = pi_name user_vim
    ∧ (¬ (pi_kind user_vim = KPackage ∧ ("vim" = "" ∨ pi_name user_vim = "vim")) →
       it' = user_vim)
    ∧ (pi_kind user_vim = KPackage → "vim" = "" ∨ pi_name user_vim = "vim" →
       (authority (pi_status user_vim) ≠ USER → transact (pi_status it') = false)
       ∧ (transact (pi_status user_vim) = true →
          authority (pi_status user_vim) = USER → it' = user_vim)).
Proof.
  apply (ResolvableNeutral_authority resetTransact_by_authority).
  - intros causer [[] a l] Htr Hrank; unfold resetTransact_by_authority;
      simpl in *; [|done].
    by rewrite (proj2 (Z.ltb_lt _ _) Hrank).
  - intros causer [[] a l] Hrank; unfold resetTransact_by_authority;
      simpl in *; [|done].
    by rewrite (proj2 (Z.ltb_ge _ _) Hrank).
  - reflexivity.
  - reflexivity.
Defined.

(** ** Commit *)

(** The symlink refresh only logs and touches the file system: it releases
    nothing and leaves the rest of the session alone. *)
Lemma CreateBaseProductSymlink_trace zy pkg w :
  ∃ added,
    trace (CreateBaseProductSymlink zy pkg w).2 = trace w ++ added
    ∧ Forall (λ e, is_release e = false) added.
Proof.
  unfold CreateBaseProductSymlink. run.
  repeat (first [case_decide | case_match]; run).
  all: simplify_eq/=; appended.
Qed.

Lemma CreateBaseProductSymlink_last_error zy pkg w :
  _last_error (CreateBaseProductSymlink zy pkg w).2 = _last_error w.
Proof.
  unfold CreateBaseProductSymlink. run.
  repeat (first [case_decide | case_match]; run).
  all: by simplify_eq/=.
Qed.



(** * Further properties *)

(** ** Announcing a package *)

Lemma invocations_call_other cb cb' t args :
  cb' ≠ cb → invocations cb (t ++ [EvCall cb' args]) = invocations cb t.
Proof.
  intros Hne. rewrite invocations_app. simpl. rewrite decide_False by done. lia.
Qed.

(** What [start] does for a package that is not the one announced last:
    the receiver it leaves and the whole session. *)
Lemma install_start_fresh env now resolvable self w :
  InstallPkgReceive._last self ≠ Some (res_ptr resolvable) →
  let source_id := logFindAlias env (res_alias resolvable) in
  let media_nr := wrap 32 (res_mediaNr resolvable) in
  InstallPkgReceive.start env now resolvable self w
  = (InstallPkgReceive.mk (Some (res_ptr resolvable)) 0 now,
     mkWorld (_silent_probing w) (redirect_map w) source_id media_nr
       (_last_error w) (pool w)
       (trace w
        ++ (if (bool_decide (source_id ≠ last_reported_repo w)
                || bool_decide (media_nr ≠ last_reported_mediumnr w))
               && ycpcb env CB_SourceChange
            then [EvCall CB_SourceChange [AInt source_id; AInt media_nr]]
            else [])
        ++ (if ycpcb env CB_StartPackage
            then [EvCall CB_StartPackage
                    [AStr (res_name resolvable); AStr (res_filename resolvable);
                     AStr (res_summary resolvable);
                     AInt (res_installSize resolvable); ABool false]]
            else []))).
Proof.
  intros Hlast. cbv zeta. unfold InstallPkgReceive.start. simpl.
  rewrite decide_False by done. run. unfold ycpcb. destruct w; simpl.
  repeat case_bool_decide;
    destruct (cb_set (_ycpcb env) CB_SourceChange);
    destruct (cb_set (_ycpcb env) CB_StartPackage); simpl;
    unfold emit, SetReportedSource; simpl;
    rewrite <- ?(assoc_L (++)), ?app_nil_r; simpl.
  all: try done.
  all: by subst.
Qed.

(** X1: a package that is not the one announced last is announced with one
    [StartPackage] carrying its name, file name, summary and size.  Right
    before it comes one [SourceChange], carrying the repository and the
    medium number as an [int], exactly when that pair differs from the one
    reported last; no other event is added.  Afterwards that pair is the
    one reported last, and the package is the one announced last. *)
Theorem install_start_announces env now resolvable self w :
  InstallPkgReceive._last self ≠ Some (res_ptr resolvable) →
  let source_id := logFindAlias env (res_alias resolvable) in
  let media_nr := wrap 32 (res_mediaNr resolvable) in
  let changed :=
    bool_decide (source_id ≠ last_reported_repo w)
    || bool_decide (media_nr ≠ last_reported_mediumnr w) in
  let r := InstallPkgReceive.start env now resolvable self w in
  trace r.2
  = trace w
    ++ (if changed && ycpcb env CB_SourceChange
        then [EvCall CB_SourceChange [AInt source_id; AInt media_nr]] else [])
    ++ (if ycpcb env CB_StartPackage
        then [EvCall CB_StartPackage
                [AStr (res_name resolvable); AStr (res_filename resolvable);
                 AStr (res_summary resolvable);
                 AInt (res_installSize resolvable); ABool false]]
        else [])
  ∧ last_reported_repo r.2 = source_id
  ∧ last_reported_mediumnr r.2 = media_nr
  ∧ r.1 = InstallPkgReceive.mk (Some (res_ptr resolvable)) 0 now.
Proof.
  intros Hlast. cbv zeta.
  pose proof (install_start_fresh env now resolvable self w Hlast) as Hstart.
  cbv zeta in Hstart. by rewrite Hstart.
Qed.

Lemma install_start_announces_witness :
  let env := answering YCPVoid in
  let resolvable := mkResolvable 1 "yast2" "yast2.rpm" "YaST2" 4096 "main"
                      4294967295 in
  let r := InstallPkgReceive.start env 1000 resolvable
             (InstallPkgReceive.mk None 0 0) (session MEDIA_CHANGE_FULL) in
  trace r.2
  = [EvCall CB_SourceChange [AInt 0; AInt (-1)];
     EvCall CB_StartPackage
       [AStr "yast2"; AStr "yast2.rpm"; AStr "YaST2"; AInt 4096; ABool false]]
  ∧ last_reported_repo r.2 = 0
  ∧ last_reported_mediumnr r.2 = -1
  ∧ r.1 = InstallPkgReceive.mk (Some 1%N) 0 1000.
Proof.
  apply (install_start_announces (answering YCPVoid) 1000
           (mkResolvable 1 "yast2" "yast2.rpm" "YaST2" 4096 "main" 4294967295)
           (InstallPkgReceive.mk None 0 0) (session MEDIA_CHANGE_FULL)).
  discriminate.
Defined.

(** X2: a package is announced once per attempt.  Starting the package
    announced last again invokes no handler and leaves the session as it
    is, also after a problem below [RPM_NODEPS_FORCE]; the only effect is
    on the receiver, whose progress counters are reset to the value 0 and
    the time of the call.  After a problem at [RPM_NODEPS_FORCE] the next
    start announces the package again with [StartPackage], and without a
    [SourceChange], the pair reported last being the package's already. *)
Theorem install_start_once_per_attempt env now now' resolvable self w
    error description level :
  InstallPkgReceive._last self ≠ Some (res_ptr resolvable) →
  let started := InstallPkgReceive.start env now resolvable self w in
  let again := InstallPkgReceive.start env now' resolvable started.1 started.2 in
  let failed := InstallPkgReceive.problem env error description level
                  started.1 started.2 in
  let retried := InstallPkgReceive.start env now' resolvable failed.1.2 failed.2 in
  let announced := InstallPkgReceive.mk (Some (res_ptr resolvable)) 0 now' in
  again = (announced, started.2)
  ∧ (level ≠ InstallResolvableReport.RPM_NODEPS_FORCE →
     retried = (announced, failed.2))
  ∧ (level = InstallResolvableReport.RPM_NODEPS_FORCE →
     retried.1 = announced
     ∧ trace retried.2
       = trace failed.2
         ++ (if ycpcb env CB_StartPackage
             then [EvCall CB_StartPackage
                     [AStr (res_name resolvable); AStr (res_filename resolvable);
                      AStr (res_summary resolvable);
                      AInt (res_installSize resolvable); ABool false]]
             else [])).
Proof.
  intros Hlast. cbv zeta.
  pose proof (install_start_fresh env now resolvable self w Hlast) as Hstart.
  cbv zeta in Hstart. rewrite Hstart. clear Hstart.
  split_and!.
  - unfold InstallPkgReceive.start at 1. simpl. by rewrite decide_True.
  - intros Hlevel. unfold InstallPkgReceive.problem.
    rewrite decide_True by done. run.
    unfold InstallPkgReceive.start at 1. simpl. by rewrite decide_True.
  - intros ->.
    set (p := InstallPkgReceive.problem _ _ _ _ _ _).
    assert (InstallPkgReceive._last p.1.2 = None
            ∧ last_reported_repo p.2 = logFindAlias env (res_alias resolvable)
            ∧ last_reported_mediumnr p.2 = wrap 32 (res_mediaNr resolvable))
      as (Hnone & Hrepo & Hmedium).
    { subst p. unfold InstallPkgReceive.problem. simpl. run.
      repeat (case_match; simpl; try done). }
    rewrite install_start_fresh by (by rewrite Hnone). simpl.
    rewrite Hrepo, Hmedium, !bool_decide_eq_false_2 by (by intros ?). done.
Qed.

Lemma install_start_once_per_attempt_witness :
  let env := answering (YCPString "R") in
  let started := InstallPkgReceive.start env 1000 a_package
                   (InstallPkgReceive.mk None 50 0) (session MEDIA_CHANGE_FULL) in
  let progressed := InstallPkgReceive.mk (Some 1%N) 50 1000 in
  InstallPkgReceive.start env 1001 a_package started.1 started.2
  = (InstallPkgReceive.mk (Some 1%N) 0 1001, started.2)
  ∧ InstallPkgReceive.start env 1001 a_package progressed started.2
    = (InstallPkgReceive.mk (Some 1%N) 0 1001, started.2).
Proof.
  split; [|reflexivity].
  apply (install_start_once_per_attempt (answering (YCPString "R")) 1000 1001
           a_package (InstallPkgReceive.mk None 50 0) (session MEDIA_CHANGE_FULL)
           InstallResolvableReport.IO "rpm failed"
           InstallResolvableReport.RPM_NODEPS_FORCE).
  discriminate.
Defined.

(** X3: whenever the install finish is not skipped (no error, or the level
    is [RPM_NODEPS_FORCE]) and [DonePackage] is registered, the handler is
    invoked once with the error code it was given and the reason. *)
Theorem install_finish_reports env error reason level w :
  error = InstallResolvableReport.NO_ERROR
  ∨ level = InstallResolvableReport.RPM_NODEPS_FORCE →
  ycpcb env CB_DonePackage = true →
  InstallPkgReceive.finish env error reason level w
  = (tt, emit (EvCall CB_DonePackage
                 [AInt (InstallResolvableReport.Error_int error); AStr reason]) w).
Proof.
  intros Hwhen Hset. unfold InstallPkgReceive.finish. rewrite Hset.
  destruct Hwhen as [-> | ->].
  - rewrite (bool_decide_eq_false_2 (_ ≠ _)) by (intros H; by apply H).
    simpl. run. by case_decide.
  - rewrite (bool_decide_eq_false_2
               (InstallResolvableReport.RPM_NODEPS_FORCE ≠ _))
      by (intros H; by apply H).
    rewrite andb_false_r. by run.
Qed.

Lemma install_finish_reports_witness :
  InstallPkgReceive.finish (answering YCPVoid) InstallResolvableReport.INVALID
    "rpm failed" InstallResolvableReport.RPM_NODEPS_FORCE
    (session MEDIA_CHANGE_FULL)
  = (tt, emit (EvCall CB_DonePackage [AInt 3; AStr "rpm failed"])
           (session MEDIA_CHANGE_FULL)).
Proof.
  apply (install_finish_reports (answering YCPVoid)
           InstallResolvableReport.INVALID "rpm failed"
           InstallResolvableReport.RPM_NODEPS_FORCE (session MEDIA_CHANGE_FULL)).
  - right. reflexivity.
  - reflexivity.
Defined.

(** ** Handlers that are not registered *)

(** Discharges the steps of a trace that cannot concern the handler [cb],
    which is known not to be registered. *)
Ltac not_concerned :=
  repeat (first [case_decide | case_match]; simplify_eq/=);
  repeat match goal with
         | H : _ && _ = true |- _ => apply andb_prop in H as [? ?]
         end;
  repeat (rewrite invocations_log
          || rewrite invocations_call_other by (intros <-; congruence));
  try done.



(** ** Answers to a media change request *)

(** What a request does once it is not suppressed and a handler has
    answered [ret]: everything after [evaluateStr]. *)
Lemma requestMedia_asked env url mediumNr label error description devices
    dev_current w ret :
  _silent_probing w ≠ MEDIA_CHANGE_DISABLE →
  ¬ (_silent_probing w = MEDIA_CHANGE_OPTIONALFILE
     ∧ error = MediaChangeReport.NOT_FOUND) →
  ycpcb env CB_MediaChange = true →
  (∀ args w', cb_func (_ycpcb env) CB_MediaChange args w' = YCPString ret) →
  ∃ w1,
    redirect_map w1 = redirect_map w
    ∧ invocations CB_MediaChange (trace w1) = S (invocations CB_MediaChange (trace w))
    ∧ MediaChangeReceive.requestMedia env url mediumNr label error description
        devices dev_current w
      = (if decide (ret = "") then mret (MediaChangeReport.RETRY, url, dev_current)
         else if decide (ret = "I")
              then mret (MediaChangeReport.IGNORE_ID, url, dev_current)
         else if decide (ret = "C")
              then mret (MediaChangeReport.ABORT, url, dev_current)
         else if decide (ret = "E")
              then mret (MediaChangeReport.EJECT, url, dev_current)
         else if bool_decide (1 < String.length ret)%nat
                 && bool_decide (String.get 0 ret = Some "E"%char)
         then
           let dev := strtonum (zypp env)
                        (String.substring 1 (String.length ret - 1) ret) in
           log y2milestone "Ejecting device %d" [AInt dev];;
           mret (MediaChangeReport.EJECT, url, dev)
         else if decide (ret = "S")
              then mret (MediaChangeReport.IGNORE, url, dev_current)
         else
           match Url_parse (zypp env) ret with
           | Some parsed =>
               rm ← get redirect_map;
               modify (set_redirect_map
                         (<[parsed := <[mediumNr := parsed]>
                                        (default ∅ (rm !! parsed))]> rm));;
               log y2milestone "Source redirected to %s" [AStr ret];;
               mret (MediaChangeReport.CHANGE_URL, parsed, dev_current)
           | None => mret (MediaChangeReport.RETRY, url, dev_current)
           end) w1.
Proof.
  intros Hdis Hopt Hset Hreply.
  unfold MediaChangeReceive.requestMedia. run.
  rewrite decide_False by done.
  assert (bool_decide (_silent_probing w = MEDIA_CHANGE_OPTIONALFILE)
          && bool_decide (error = MediaChangeReport.NOT_FOUND) = false) as ->.
  { apply andb_false_iff.
    destruct (decide (_silent_probing w = MEDIA_CHANGE_OPTIONALFILE));
      [right | left]; apply bool_decide_eq_false; tauto. }
  rewrite Hset.
  destruct (match redirect_map w !! url with
            | Some media => media !! mediumNr
            | None => None
            end) as [r|]; simpl; rewrite Hreply; eexists;
    (split_and!; [| |reflexivity]); simpl; try done;
    by rewrite invocations_call, ?invocations_log.
Qed.

(** X5: the five one-word answers.  An empty answer retries, "I" ignores the
    medium id, "C" aborts, "E" ejects and "S" skips the medium; none of them
    changes the URL, the device or the redirect map, and the handler is
    asked exactly once. *)
Theorem requestMedia_tokens env url mediumNr label error description devices
    dev_current w ret action :
  _silent_probing w ≠ MEDIA_CHANGE_DISABLE →
  ¬ (_silent_probing w = MEDIA_CHANGE_OPTIONALFILE
     ∧ error = MediaChangeReport.NOT_FOUND) →
  ycpcb env CB_MediaChange = true →
  (∀ args w', cb_func (_ycpcb env) CB_MediaChange args w' = YCPString ret) →
  (ret, action) ∈ [("", MediaChangeReport.RETRY);
                   ("I", MediaChangeReport.IGNORE_ID);
                   ("C", MediaChangeReport.ABORT);
                   ("E", MediaChangeReport.EJECT);
                   ("S", MediaChangeReport.IGNORE)] →
  let r := MediaChangeReceive.requestMedia env url mediumNr label error
             description devices dev_current w in
  r.1 = (action, url, dev_current)
  ∧ redirect_map r.2 = redirect_map w
  ∧ invocations CB_MediaChange (trace r.2)
    = S (invocations CB_MediaChange (trace w)).
Proof.
  intros Hdis Hopt Hset Hreply Htoken. cbv zeta.
  destruct (requestMedia_asked env url mediumNr label error description devices
              dev_current w ret Hdis Hopt Hset Hreply) as (w1 & Hmap & Hinv & ->).
  rewrite !elem_of_cons, elem_of_nil in Htoken.
  destruct Htoken as [?|[?|[?|[?|[?|[]]]]]]; simplify_eq; done.
Qed.

Lemma requestMedia_tokens_witness :
  let r := MediaChangeReceive.requestMedia (answering (YCPString "S")) "cd:///"
             2%N "main" MediaChangeReport.WRONG "insert medium 2" [] 0
             (session MEDIA_CHANGE_OPTIONALFILE) in
  r.1 = (MediaChangeReport.IGNORE, "cd:///", 0)
  ∧ redirect_map r.2 = redirect_map (session MEDIA_CHANGE_OPTIONALFILE)
  ∧ invocations CB_MediaChange (trace r.2)
    = S (invocations CB_MediaChange (trace (session MEDIA_CHANGE_OPTIONALFILE))).
Proof.
  apply (requestMedia_tokens (answering (YCPString "S")) "cd:///" 2%N "main"
           MediaChangeReport.WRONG "insert medium 2" [] 0
           (session MEDIA_CHANGE_OPTIONALFILE) "S" MediaChangeReport.IGNORE).
  - discriminate.
  - intros [_ H]. discriminate H.
  - reflexivity.
  - intros args w'. reflexivity.
  - do 4 right. left.
Defined.

(** X6: every answer longer than one character that starts with 'E' is an
    eject request for the device that [strtonum] reads from the rest,
    whatever the rest is: such an answer is never tried as a URL, and the
    redirect map is not changed. *)
Theorem requestMedia_eject_device env url mediumNr label error description
    devices dev_current w rest :
  _silent_probing w ≠ MEDIA_CHANGE_DISABLE →
  ¬ (_silent_probing w = MEDIA_CHANGE_OPTIONALFILE
     ∧ error = MediaChangeReport.NOT_FOUND) →
  ycpcb env CB_MediaChange = true →
  (∀ args w', cb_func (_ycpcb env) CB_MediaChange args w'
              = YCPString (String "E" rest)) →
  rest ≠ "" →
  let r := MediaChangeReceive.requestMedia env url mediumNr label error
             description devices dev_current w in
  r.1 = (MediaChangeReport.EJECT, url, strtonum (zypp env) rest)
  ∧ redirect_map r.2 = redirect_map w.
Proof.
  intros Hdis Hopt Hset Hreply Hrest. cbv zeta.
  destruct (requestMedia_asked env url mediumNr label error description devices
              dev_current w _ Hdis Hopt Hset Hreply) as (w1 & Hmap & Hinv & ->).
  destruct rest as [|c rest]; [done|].
  rewrite !decide_False by (intros ?; simplify_eq).
  rewrite !bool_decide_eq_true_2 by (simpl; done || lia).
  cbn [andb]. run.
  replace (String.length rest - 0)%nat with (String.length rest) by lia.
  assert (∀ s, String.substring 0 (String.length s) s = s) as Hsub.
  { induction s; simpl; congruence. }
  by rewrite Hsub.
Qed.

Lemma requestMedia_eject_device_witness :
  let env := answering (YCPString "Eftp://example.com/repo") in
  let r := MediaChangeReceive.requestMedia env "cd:///" 2%N "main"
             MediaChangeReport.WRONG "insert medium 2" [] 7
             (session MEDIA_CHANGE_FULL) in
  r.1 = (MediaChangeReport.EJECT, "cd:///",
         strtonum (zypp env) "ftp://example.com/repo")
  ∧ redirect_map r.2 = redirect_map (session MEDIA_CHANGE_FULL).
Proof.
  apply (requestMedia_eject_device (answering (YCPString "Eftp://example.com/repo"))
           "cd:///" 2%N "main" MediaChangeReport.WRONG "insert medium 2" [] 7
           (session MEDIA_CHANGE_FULL) "ftp://example.com/repo").
  - discriminate.
  - intros [H _]. discriminate H.
  - reflexivity.
  - intros args w'. reflexivity.
  - discriminate.
Defined.

(** X7: the URL shown to the handler is the redirect recorded in the map
    for this URL and medium when there is one, and the request's own URL
    otherwise; apart from that one invocation the request only writes log
    lines. *)
Theorem requestMedia_presents env url mediumNr label error description devices
    dev_current w :
  _silent_probing w ≠ MEDIA_CHANGE_DISABLE →
  ¬ (_silent_probing w = MEDIA_CHANGE_OPTIONALFILE
     ∧ error = MediaChangeReport.NOT_FOUND) →
  ycpcb env CB_MediaChange = true →
  let r := MediaChangeReceive.requestMedia env url mediumNr label error
             description devices dev_current w in
  let presented := default url (redirected (redirect_map w) url mediumNr) in
  ∃ before after,
    trace r.2
    = trace w ++ before
      ++ EvCall CB_MediaChange
           [AStr description; AStr presented; AStr label; AInt 0; AStr "";
            AInt (Z.of_N mediumNr); AStr ""; ABool false] :: after
    ∧ Forall (λ e, is_log e = true) before
    ∧ Forall (λ e, is_log e = true) after.
Proof.
  intros Hdis Hopt Hset. cbv zeta.
  unfold MediaChangeReceive.requestMedia, redirected. run.
  rewrite decide_False by done.
  assert (bool_decide (_silent_probing w = MEDIA_CHANGE_OPTIONALFILE)
          && bool_decide (error = MediaChangeReport.NOT_FOUND) = false) as ->.
  { apply andb_false_iff.
    destruct (decide (_silent_probing w = MEDIA_CHANGE_OPTIONALFILE));
      [right | left]; apply bool_decide_eq_false; tauto. }
  rewrite Hset.
  destruct (redirect_map w !! url) as [media|]; simpl;
    [destruct (media !! mediumNr) as [r|]; simpl|].
  1: exists [EvLog y2milestone "Using redirected URL %s, original URL: %s"
               [AStr r; AStr url]].
  2, 3: exists [].
  all: repeat (first [case_decide | case_match]; simplify_eq/=);
    eexists;
    (split; [rewrite <- ?(assoc_L (++)); simpl; reflexivity
            | split; repeat constructor]).
Qed.

Lemma requestMedia_presents_witness :
  let w := set_redirect_map {["cd:///" := {[2%N := "http://example.com/cd2"]}]}
             (session MEDIA_CHANGE_FULL) in
  let r := MediaChangeReceive.requestMedia (answering (YCPString "")) "cd:///"
             2%N "main" MediaChangeReport.WRONG "insert medium 2" [] 0 w in
  ∃ before after,
    trace r.2
    = trace w ++ before
      ++ EvCall CB_MediaChange
           [AStr "insert medium 2";
            AStr (default "cd:///" (redirected (redirect_map w) "cd:///" 2%N));
            AStr "main"; AInt 0; AStr ""; AInt 2; AStr ""; ABool false] :: after
    ∧ Forall (λ e, is_log e = true) before
    ∧ Forall (λ e, is_log e = true) after.
Proof.
  apply (requestMedia_presents (answering (YCPString "")) "cd:///" 2%N "main"
           MediaChangeReport.WRONG "insert medium 2" [] 0
           (set_redirect_map {["cd:///" := {[2%N := "http://example.com/cd2"]}]}
              (session MEDIA_CHANGE_FULL))).
  - discriminate.
  - intros [H _]. discriminate H.
  - reflexivity.
Defined.



(** ** What [ResolvableNeutral] returns *)

Lemma forallb_false {A} (f : A → bool) (l : list A) :
  forallb f l = false ↔ ∃ x, x ∈ l ∧ f x = false.
Proof.
  induction l as [|a l IH]; simpl.
  - split; [done|]. intros (x & Hx & _). by apply elem_of_nil in Hx.
  - rewrite andb_false_iff, IH. split.
    + intros [Ha | (x & Hx & Hf)].
      * exists a. split; [by left | done].
      * exists x. split; [by right | done].
    + intros (x & [-> | Hx]%elem_of_cons & Hf); [by left | right; eauto].
Qed.

Section NeutralResult.
Context (resetTransact : TransactByValue → ResStatus → bool * ResStatus).

(** The engine refuses a reset asked below the authority of the mark. *)
Hypothesis reset_refused :
  ∀ causer st,
    transact st = true →
    authority_rank causer < authority_rank (authority st) →
    (resetTransact causer st).1 = false.

(** The engine honours every other reset. *)
Hypothesis reset_honoured :
  ∀ causer st,
    ¬ (transact st = true
       ∧ authority_rank causer < authority_rank (authority st)) →
    (resetTransact causer st).1 = true.

Lemma neutral_loop_result name force kind items :
  ∀ ret,
    (neutral_loop resetTransact name force kind items ret).1
    = ret
      && forallb (λ it,
           negb (bool_decide (pi_kind it = kind)
                 && (bool_decide (name = "") || bool_decide (pi_name it = name))
                 && transact (pi_status it)
                 && bool_decide (authority (pi_status it) = USER))) items.
Proof.
  induction items as [|it items IH]; intros ret; simpl.
  { by rewrite andb_true_r. }
  destruct (bool_decide (pi_kind it = kind)
            && (bool_decide (name = "") || bool_decide (pi_name it = name)));
    simpl.
  - destruct (resetTransact whoWantsIt (pi_status it)) as [ok st] eqn:E1.
    assert (ok = negb (transact (pi_status it)
                       && bool_decide (authority (pi_status it) = USER))) as ->.
    { change ok with (ok, st).1. rewrite <- E1.
      destruct (transact (pi_status it)) eqn:Et;
        [destruct (decide (authority (pi_status it) = USER)) as [Ha|Ha]|].
      - rewrite bool_decide_eq_true_2 by done. simpl.
        apply reset_refused; [done|]. rewrite Ha. reflexivity.
      - rewrite bool_decide_eq_false_2 by done. simpl.
        apply reset_honoured. intros [_ Hlt]. unfold whoWantsIt in Hlt.
        destruct (authority (pi_status it)); simpl in Hlt; done || lia.
      - simpl. apply reset_honoured. intros [? _]. congruence. }
    assert (∀ st', (resetTransact USER st').1 = true) as Huser.
    { intros st'. apply reset_honoured. intros [_ Hlt].
      destruct (authority st'); simpl in Hlt; lia. }
    destruct force.
    + destruct (resetTransact USER st) as [ok' st'] eqn:E2.
      assert (ok' = true) as -> by (change ok' with (ok', st').1;
                                     by rewrite <- E2).
      specialize (IH (if true && negb true then false
                      else if negb (negb (transact (pi_status it)
                               && bool_decide (authority (pi_status it) = USER)))
                           then false else ret)).
      destruct (neutral_loop _ _ _ _ _ _). simpl in *. rewrite IH.
      destruct ret, (transact (pi_status it)),
        (bool_decide (authority (pi_status it) = USER)); done.
    + specialize (IH (if false && negb true then false
                      else if negb (negb (transact (pi_status it)
                               && bool_decide (authority (pi_status it) = USER)))
                           then false else ret)).
      destruct (neutral_loop _ _ _ _ _ _). simpl in *. rewrite IH.
      destruct ret, (transact (pi_status it)),
        (bool_decide (authority (pi_status it) = USER)); done.
  - specialize (IH ret). destruct (neutral_loop _ _ _ _ _ _).
    simpl in *. by rewrite IH.
Qed.

(** X9: for a known kind, [ResolvableNeutral] answers with a boolean that
    is false exactly when some item it selects carries a transact mark of
    the user.  This does not depend on [force]: a forced call clears the
    user's mark and still reports failure, because the request at the
    application authority was refused first. *)
Theorem ResolvableNeutral_result name kind_r force kind w :
  kind_of_symbol kind_r = Some kind →
  ∃ b,
    (ResolvableNeutral resetTransact name kind_r force w).1 = YCPBoolean b
    ∧ (b = false
       ↔ ∃ it, it ∈ pool w
               ∧ pi_kind it = kind ∧ (name = "" ∨ pi_name it = name)
               ∧ transact (pi_status it) = true
               ∧ authority (pi_status it) = USER).
Proof.
  intros Hkind. unfold ResolvableNeutral. rewrite Hkind. run.
  pose proof (neutral_loop_result name force kind (pool w) true) as Hret.
  destruct (neutral_loop resetTransact name force kind (pool w) true)
    as [ret items']. simpl in *. eexists. split; [done|].
  rewrite Hret. clear Hret. simpl. rewrite forallb_false.
  apply exist_proper. intros it.
  rewrite negb_false_iff, !andb_true_iff, orb_true_iff, !bool_decide_eq_true.
  tauto.
Qed.

End NeutralResult.

Lemma ResolvableNeutral_result_witness :
  ∃ b,
    (ResolvableNeutral resetTransact_by_authority "vim" "package" true
       (with_pool a_pool)).1 = YCPBoolean b
    ∧ (b = false
       ↔ ∃ it, it ∈ pool (with_pool a_pool)
               ∧ pi_kind it = KPackage ∧ ("vim" = "" ∨ pi_name it = "vim")
               ∧ transact (pi_status it) = true
               ∧ authority (pi_status it) = USER).
Proof.
  apply (ResolvableNeutral_result resetTransact_by_authority).
  - intros causer [[] a l] Htr Hrank; unfold resetTransact_by_authority;
      simpl in *; [|done].
    by rewrite (proj2 (Z.ltb_lt _ _) Hrank).
  - intros causer [[] a l] Hno; unfold resetTransact_by_authority;
      simpl in *; [|done].
    destruct (Z.ltb_spec (authority_rank causer) (authority_rank a)); [|done].
    exfalso. apply Hno. done.
  - reflexivity.
Defined.

(** ** Kind symbols *)

Lemma kind_of_symbol_unknown kind_r :
  kind_r ∉ ["product"; "patch"; "package"; "selection"; "pattern"] →
  kind_of_symbol kind_r = None.
Proof.
  rewrite !not_elem_of_cons. intros (?&?&?&?&?&_).
  unfold kind_of_symbol. by rewrite !decide_False.
Qed.

(** X10: with a kind symbol other than product, patch, package, selection
    and pattern, [ResolvableNeutral] and [ResolvableSetSoftLock] return
    false, write one error line and ask the engine for nothing: the pool is
    as before. *)
Theorem unknown_kind_symbol reset lock name kind_r force w :
  kind_r ∉ ["product"; "patch"; "package"; "selection"; "pattern"] →
  ResolvableNeutral reset name kind_r force w
  = (YCPBoolean false,
     emit (EvLog y2error "Pkg::ResolvableNeutral: unknown symbol: %s"
             [AStr kind_r]) w)
  ∧ ResolvableSetSoftLock lock name kind_r w
    = (YCPBoolean false,
       emit (EvLog y2error "Pkg::ResolvableSetSoftLock: unknown symbol: %s"
               [AStr kind_r]) w).
Proof.
  intros Hk%kind_of_symbol_unknown.
  unfold ResolvableNeutral, ResolvableSetSoftLock. by rewrite Hk.
Qed.

Lemma unknown_kind_symbol_witness :
  ResolvableNeutral resetTransact_by_authority "vim" "srcpackage" true
    (with_pool a_pool)
  = (YCPBoolean false,
     emit (EvLog y2error "Pkg::ResolvableNeutral: unknown symbol: %s"
             [AStr "srcpackage"]) (with_pool a_pool)).
Proof.
  apply (unknown_kind_symbol resetTransact_by_authority resetTransact_by_authority
           "vim" "srcpackage" true (with_pool a_pool)).
  rewrite !not_elem_of_cons. split_and!; try discriminate. apply not_elem_of_nil.
Defined.

(** ** Soft locks *)

Lemma softlock_loop_spec lock name kind items :
  ∀ ret,
    softlock_loop lock name kind items ret
    = (ret && forallb (λ it,
                negb (bool_decide (pi_kind it = kind)
                      && (bool_decide (name = "")
                          || bool_decide (pi_name it = name)))
                || (lock whoWantsIt (pi_status it)).1) items,
       map (λ it,
              if bool_decide (pi_kind it = kind)
                 && (bool_decide (name = "") || bool_decide (pi_name it = name))
              then set_status (lock whoWantsIt (pi_status it)).2 it
              else it) items).
Proof.
  induction items as [|it items IH]; intros ret; simpl.
  { by rewrite andb_true_r. }
  destruct (bool_decide (pi_kind it = kind)
            && (bool_decide (name = "") || bool_decide (pi_name it = name)));
    simpl.
  - destruct (lock whoWantsIt (pi_status it)) as [ok st]. simpl.
    rewrite IH. by destruct ok, ret.
  - by rewrite IH.
Qed.

(** X11: for a known kind, [ResolvableSetSoftLock] asks the engine once for
    every item of the kind whose name matches (every item of the kind when
    the name is empty), always at the application authority, and leaves the
    other items as they are; it answers true exactly when the engine
    honoured every request. *)
Theorem ResolvableSetSoftLock_selects lock name kind_r kind w :
  kind_of_symbol kind_r = Some kind →
  let selected it :=
    bool_decide (pi_kind it = kind)
    && (bool_decide (name = "") || bool_decide (pi_name it = name)) in
  let r := ResolvableSetSoftLock lock name kind_r w in
  r.1 = YCPBoolean
          (forallb (λ it, negb (selected it)
                          || (lock whoWantsIt (pi_status it)).1) (pool w))
  ∧ trace r.2 = trace w
  ∧ ∀ i it,
      pool w !! i = Some it →
      pool r.2 !! i
      = Some (if selected it
              then set_status (lock whoWantsIt (pi_status it)).2 it
              else it).
Proof.
  intros Hkind selected r. subst r selected. unfold ResolvableSetSoftLock.
  rewrite Hkind. run. rewrite softlock_loop_spec. simpl.
  split_and!; [done | done |].
  intros i it Hit. by rewrite list_lookup_fmap, Hit.
Qed.

Lemma ResolvableSetSoftLock_selects_witness :
  (ResolvableSetSoftLock resetTransact_by_authority "zsh" "package"
     (with_pool a_pool)).1
  = YCPBoolean
      (forallb (λ it, negb (bool_decide (pi_kind it = KPackage)
                            && (bool_decide ("zsh" = "")
                                || bool_decide (pi_name it = "zsh")))
                      || (resetTransact_by_authority whoWantsIt (pi_status it)).1)
         (pool (with_pool a_pool))).
Proof.
  apply (ResolvableSetSoftLock_selects resetTransact_by_authority "zsh" "package"
           KPackage (with_pool a_pool)).
  reflexivity.
Defined.

(** ** Counting and preselecting patches *)

Lemma logged_nil w : logged w [] = w.
Proof. destruct w. unfold logged. simpl. by rewrite app_nil_r. Qed.

Lemma emit_logged e w added : emit e (logged w added) = logged w (added ++ [e]).
Proof. unfold emit, logged. simpl. by rewrite (assoc_L (++)). Qed.

Lemma logged_logged w a1 a2 : logged (logged w a1) a2 = logged w (a1 ++ a2).
Proof. unfold logged. simpl. by rewrite (assoc_L (++)). Qed.

Lemma emit_is_logged e w : emit e w = logged w [e].
Proof. done. Qed.

Lemma filter_length_mono {A} (f g : A → bool) (l : list A) :
  (∀ x, f x = true → g x = true) →
  (length (List.filter f l) ≤ length (List.filter g l))%nat.
Proof.
  intros Hfg. induction l as [|a l IH]; simpl; [done|].
  destruct (f a) eqn:Ef.
  - rewrite (Hfg a Ef). simpl. lia.
  - destruct (g a); simpl; lia.
Qed.

Section PatchProperties.
Context (isNeeded : ResStatus → bool)
        (asPatch : PoolItem → option Patch)
        (setTransact : bool → TransactByValue → ResStatus → bool * ResStatus)
        (asString : PoolItem → string).

#[local] Abbreviation elig := (eligible isNeeded asPatch).
#[local] Abbreviation body := (patches_body isNeeded asPatch setTransact asString).
#[local] Abbreviation loop := (patches_loop isNeeded asPatch setTransact asString).
#[local] Abbreviation SetPatches :=
  (ResolvableSetPatches isNeeded asPatch setTransact asString).

(** Whether the call counts the item: it is eligible and, when
    preselecting, the engine agreed to schedule it. *)
#[local] Abbreviation counted kind preselect :=
  (λ i, elig kind i
        && (negb preselect || (setTransact true whoWantsIt (pi_status i)).1)).

(** What the call leaves in the pool for the item. *)
#[local] Abbreviation outcome kind preselect :=
  (λ i, if preselect && elig kind i
        then set_status (setTransact true whoWantsIt (pi_status i)).2 i
        else i).

Lemma patches_body_spec kind preselect i sel w :
  0 ≤ sel < 2 ^ 63 - 1 →
  ∃ added,
    Forall (λ e, is_log e = true) added
    ∧ body kind preselect i sel w
      = ((sel + (if counted kind preselect i then 1 else 0),
          outcome kind preselect i), logged w added).
Proof.
  intros Hsel. unfold patches_body, eligible.
  assert (wrap 64 (sel + 1) = sel + 1) as Hwrap by (apply wrap_small; lia).
  destruct (isNeeded (pi_status i)); simpl;
    [destruct (asPatch i) as [pch|]; simpl|];
    [destruct (bool_decide (patch_category pch = "optional")); simpl| |];
    [|destruct (bool_decide (kind = "all")
                || bool_decide (kind = "interactive") && patch_interactive pch
                || bool_decide (kind = "affects_pkg_manager")
                   && patch_affects_pkg_manager pch
                || bool_decide (kind = "reboot_needed")
                   && patch_reboot_needed pch); simpl| |];
    [|destruct preselect; simpl;
      [destruct (setTransact true whoWantsIt (pi_status i)) as [[] st]; simpl|]
     | | |].
  all: run; rewrite ?Hwrap, ?andb_false_r, ?Z.add_0_r;
    rewrite ?emit_is_logged;
    first [ by exists []; rewrite logged_nil
          | eexists; split; [|reflexivity]; by repeat constructor ].
Qed.

Lemma patches_loop_spec kind preselect items :
  ∀ sel w,
    0 ≤ sel →
    sel + Z.of_nat (length items) < 2 ^ 63 →
    ∃ added,
      Forall (λ e, is_log e = true) added
      ∧ loop kind preselect items sel w
        = ((sel + Z.of_nat (length (List.filter (counted kind preselect) items)),
            map (outcome kind preselect) items), logged w added).
Proof.
  induction items as [|i items IH]; intros sel w Hsel Hbound.
  { exists []. split; [constructor|]. simpl. unfold mret, M_ret.
    by rewrite Z.add_0_r, logged_nil. }
  cbn [patches_loop map List.filter length] in *.
  destruct (patches_body_spec kind preselect i sel w) as (a1 & Ha1 & Hbody);
    [lia|].
  unfold mbind, M_bind. rewrite Hbody. cbn [fst snd].
  destruct (IH (sel + (if counted kind preselect i then 1 else 0))
              (logged w a1)) as (a2 & Ha2 & Hrest).
  { destruct (counted kind preselect i); lia. }
  { destruct (counted kind preselect i); lia. }
  rewrite Hrest. exists (a1 ++ a2). split; [by apply Forall_app|].
  unfold mret, M_ret. cbn [fst snd]. rewrite logged_logged.
  f_equal. f_equal.
  destruct (counted kind preselect i); cbn [length]; lia.
Qed.

Lemma valid_patch_kind kind :
  kind ∈ ["all"; "interactive"; "reboot_needed"; "affects_pkg_manager"] →
  bool_decide (kind ≠ "all") && bool_decide (kind ≠ "interactive")
  && bool_decide (kind ≠ "reboot_needed")
  && bool_decide (kind ≠ "affects_pkg_manager") = false.
Proof.
  rewrite !elem_of_cons, elem_of_nil. intros [->|[->|[->|[->|[]]]]]; done.
Qed.

(** X12: [ResolvableCountPatches] only reads.  For one of the four kinds it
    returns the number of needed, non-optional patches of that sort, leaves
    the pool as it is and adds nothing but log lines; the number for any
    kind is at most the number for [`all]. *)
Theorem ResolvableCountPatches_reads kind w :
  kind ∈ ["all"; "interactive"; "reboot_needed"; "affects_pkg_manager"] →
  Z.of_nat (length (pool w)) < 2 ^ 63 →
  ∃ added,
    Forall (λ e, is_log e = true) added
    ∧ ResolvableCountPatches isNeeded asPatch setTransact asString kind w
      = (YCPReturn
           (YCPInteger (Z.of_nat (length (List.filter (elig kind) (pool w))))),
         logged w added)
    ∧ (length (List.filter (elig kind) (pool w))
       ≤ length (List.filter (elig "all") (pool w)))%nat.
Proof.
  intros Hkind Hlen. unfold ResolvableCountPatches, ResolvableSetPatches.
  rewrite valid_patch_kind by done. run.
  destruct (patches_loop_spec kind false (pool w) 0 w) as (added & Hadded & Hloop);
    [lia | lia |].
  rewrite Hloop. cbn [fst snd]. exists added. split_and!; [done | |].
  - rewrite Z.add_0_l.
    rewrite (List.filter_ext _ (elig kind))
      by (intros i; simpl; by rewrite andb_true_r).
    rewrite (map_ext _ id) by (intros; reflexivity). rewrite map_id.
    unfold set_pool, logged. by destruct w.
  - apply filter_length_mono. intros i. unfold eligible.
    destruct (isNeeded (pi_status i)); simpl; [|done].
    destruct (asPatch i) as [pch|]; simpl; [|done].
    by destruct (negb (bool_decide (patch_category pch = "optional"))).
Qed.

(** X13: [ResolvablePreselectPatches] asks the engine to schedule exactly
    the needed, non-optional patches of the asked sort, at the application
    authority, and leaves every other pool item as it is; it returns how
    many of these requests the engine honoured, which is never more than
    what [ResolvableCountPatches] returns for the same pool. *)
Theorem ResolvablePreselectPatches_selects kind w :
  kind ∈ ["all"; "interactive"; "reboot_needed"; "affects_pkg_manager"] →
  Z.of_nat (length (pool w)) < 2 ^ 63 →
  let r := ResolvablePreselectPatches isNeeded asPatch setTransact asString kind w in
  let honoured :=
    List.filter (λ i, elig kind i
                      && (setTransact true whoWantsIt (pi_status i)).1) (pool w) in
  r.1 = YCPReturn (YCPInteger (Z.of_nat (length honoured)))
  ∧ (length honoured ≤ length (List.filter (elig kind) (pool w)))%nat
  ∧ ∀ n i,
      pool w !! n = Some i →
      pool r.2 !! n
      = Some (if elig kind i
              then set_status (setTransact true whoWantsIt (pi_status i)).2 i
              else i).
Proof.
  intros Hkind Hlen r honoured. subst r honoured.
  unfold ResolvablePreselectPatches, ResolvableSetPatches.
  rewrite valid_patch_kind by done. run.
  destruct (patches_loop_spec kind true (pool w) 0 w) as (added & Hadded & Hloop);
    [lia | lia |].
  rewrite Hloop. cbn [fst snd]. split_and!.
  - by rewrite Z.add_0_l.
  - apply filter_length_mono. intros i Hi. by apply andb_true_iff in Hi as [? _].
  - intros n i Hi. simpl. by rewrite list_lookup_fmap, Hi.
Qed.

(** X14: with a kind other than [`all], [`interactive], [`reboot_needed]
    and [`affects_pkg_manager], counting and preselecting both return an
    error that carries the value 0 and names the kind; the session is not
    touched and the engine is not asked. *)
Theorem ResolvableSetPatches_wrong_kind kind preselect w :
  kind ∉ ["all"; "interactive"; "reboot_needed"; "affects_pkg_manager"] →
  ResolvableSetPatches isNeeded asPatch setTransact asString kind preselect w
  = (YCPErrorWith
       ("Pkg::ResolvablePreselectPatches: Wrong parameter '" +:+ kind
        +:+ "', use: `all, `interactive, `reboot_needed or `affects_pkg_manager")
       (YCPInteger 0), w).
Proof.
  rewrite !not_elem_of_cons. intros (?&?&?&?&_).
  unfold ResolvableSetPatches.
  by rewrite !bool_decide_eq_true_2.
Qed.

End PatchProperties.

Lemma ResolvableCountPatches_reads_witness :
  ∃ added,
    Forall (λ e, is_log e = true) added
    ∧ ResolvableCountPatches sample_isNeeded sample_asPatch sample_setTransact
        pi_name "reboot_needed" (with_pool patch_pool)
      = (YCPReturn
           (YCPInteger
              (Z.of_nat
                 (length (List.filter
                            (eligible sample_isNeeded sample_asPatch "reboot_needed")
                            (pool (with_pool patch_pool)))))),
         logged (with_pool patch_pool) added)
    ∧ (length (List.filter (eligible sample_isNeeded sample_asPatch "reboot_needed")
                 (pool (with_pool patch_pool)))
       ≤ length (List.filter (eligible sample_isNeeded sample_asPatch "all")
                   (pool (with_pool patch_pool))))%nat.
Proof.
  apply (ResolvableCountPatches_reads sample_isNeeded sample_asPatch
           sample_setTransact pi_name "reboot_needed" (with_pool patch_pool)).
  - do 2 right. left.
  - simpl. lia.
Defined.

Lemma ResolvablePreselectPatches_selects_witness :
  (ResolvablePreselectPatches sample_isNeeded sample_asPatch sample_setTransact
     pi_name "all" (with_pool patch_pool)).1
  = YCPReturn
      (YCPInteger
         (Z.of_nat
            (length
               (List.filter
                  (λ i, eligible sample_isNeeded sample_asPatch "all" i
                        && (sample_setTransact true whoWantsIt (pi_status i)).1)
                  (pool (with_pool patch_pool)))))).
Proof.
  apply (ResolvablePreselectPatches_selects sample_isNeeded sample_asPatch
           sample_setTransact pi_name "all" (with_pool patch_pool)).
  - left.
  - simpl. lia.
Defined.

Lemma ResolvableSetPatches_wrong_kind_witness :
  ResolvableSetPatches sample_isNeeded sample_asPatch sample_setTransact pi_name
    "security" true (with_pool patch_pool)
  = (YCPErrorWith
       ("Pkg::ResolvablePreselectPatches: Wrong parameter '" +:+ "security"
        +:+ "', use: `all, `interactive, `reboot_needed or `affects_pkg_manager")
       (YCPInteger 0), with_pool patch_pool).
Proof.
  apply (ResolvableSetPatches_wrong_kind sample_isNeeded sample_asPatch
           sample_setTransact pi_name "security" true (with_pool patch_pool)).
  rewrite !not_elem_of_cons. split_and!; try discriminate. apply not_elem_of_nil.
Defined.

(** ** Removal progress *)

(** X15: removal progress is not throttled.  With a registered handler a
    stream of removal updates invokes it once per update, whatever the
    values are and however quickly they follow each other. *)
Theorem remove_progress_unthrottled env dflt values :
  ycpcb env CB_ProgressPackage = true →
  ∀ w,
    invocations CB_ProgressPackage
      (trace (RemovePkgProgress.deliver env dflt values w).2)
    = (invocations CB_ProgressPackage (trace w) + length values)%nat.
Proof.
  intros Hset. induction values as [|v values IH]; intros w; simpl.
  { lia. }
  unfold RemovePkgProgress.progress. rewrite Hset. run.
  destruct (match cb_func _ _ _ _ with YCPBoolean b => b | _ => false end);
    simpl; rewrite IH; simpl;
    rewrite ?invocations_log, invocations_call; lia.
Qed.

Lemma remove_progress_unthrottled_witness :
  invocations CB_ProgressPackage
    (trace (RemovePkgProgress.deliver (answering (YCPBoolean true)) true
              [1; 1; 2] (session MEDIA_CHANGE_FULL)).2)
  = (invocations CB_ProgressPackage (trace (session MEDIA_CHANGE_FULL))
     + length [1; 1; 2])%nat.
Proof.
  apply (remove_progress_unthrottled (answering (YCPBoolean true)) true [1; 1; 2]).
  reflexivity.
Defined.

(** ** Error names *)

(** X16: a registered [SourceCreateError] handler is told a source
    creation error, and a registered [SourceProbeEnd] handler a probe
    error, by its name, between the URL and the text of the report; these
    names tell the errors apart: both conversions give different errors
    different names. *)
Theorem error_names_distinct env url text w :
  ycpcb env CB_SourceCreateError = true →
  ycpcb env CB_SourceProbeEnd = true →
  (∀ error, ∃ rest,
     trace (SourceCreateReceive.problem env url error text w).2
     = trace w
       ++ EvCall CB_SourceCreateError
            [AStr url; AStr (SourceCreateReceive.CreateSrcErrorAsString error);
             AStr text] :: rest)
  ∧ (∀ error,
       trace (ProbeSourceReceive.finish env url error text w).2
       = trace w
         ++ [EvCall CB_SourceProbeEnd
               [AStr url; AStr (ProbeSourceReceive.ProbeSrcErrorAsString error);
                AStr text]])
  ∧ (∀ e1 e2, SourceCreateReceive.CreateSrcErrorAsString e1
              = SourceCreateReceive.CreateSrcErrorAsString e2 → e1 = e2)
  ∧ (∀ e1 e2, ProbeSourceReceive.ProbeSrcErrorAsString e1
              = ProbeSourceReceive.ProbeSrcErrorAsString e2 → e1 = e2).
Proof.
  intros Hcreate Hprobe. split_and!.
  - intros error. unfold SourceCreateReceive.problem. rewrite Hcreate. run.
    repeat (case_decide; simpl); [by exists [].. |].
    eexists. by rewrite <- (assoc_L (++)).
  - intros error. unfold ProbeSourceReceive.finish. run. by rewrite Hprobe.
  - intros [] []; simpl; (done || discriminate).
  - intros [] []; simpl; (done || discriminate).
Qed.

Lemma error_names_distinct_witness :
  (∀ error, ∃ rest,
     trace (SourceCreateReceive.problem (answering (YCPSymbol "RETRY"))
              "http://example.com/repo" error "no metadata"
              (session MEDIA_CHANGE_FULL)).2
     = trace (session MEDIA_CHANGE_FULL)
       ++ EvCall CB_SourceCreateError
            [AStr "http://example.com/repo";
             AStr (SourceCreateReceive.CreateSrcErrorAsString error);
             AStr "no metadata"] :: rest)
  ∧ (∀ error,
       trace (ProbeSourceReceive.finish (answering (YCPSymbol "RETRY"))
                "http://example.com/repo" error "no metadata"
                (session MEDIA_CHANGE_FULL)).2
       = trace (session MEDIA_CHANGE_FULL)
         ++ [EvCall CB_SourceProbeEnd
               [AStr "http://example.com/repo";
                AStr (ProbeSourceReceive.ProbeSrcErrorAsString error);
                AStr "no metadata"]])
  ∧ (∀ e1 e2, SourceCreateReceive.CreateSrcErrorAsString e1
              = SourceCreateReceive.CreateSrcErrorAsString e2 → e1 = e2)
  ∧ (∀ e1 e2, ProbeSourceReceive.ProbeSrcErrorAsString e1
              = ProbeSourceReceive.ProbeSrcErrorAsString e2 → e1 = e2).
Proof.
  apply (error_names_distinct (answering (YCPSymbol "RETRY"))
           "http://example.com/repo" "no metadata" (session MEDIA_CHANGE_FULL));
    reflexivity.
Defined.

(** ** Joining lines *)

Lemma string_app_cons c (s1 s2 : string) :
  String c s1 +:+ s2 = String c (s1 +:+ s2).
Proof. done. Qed.

Lemma string_app_length (s1 s2 : string) :
  String.length (s1 +:+ s2) = (String.length s1 + String.length s2)%nat.
Proof.
  induction s1 as [|c s1 IH]; [done|].
  rewrite string_app_cons. simpl. by rewrite IH.
Qed.

Lemma string_app_assoc (s1 s2 s3 : string) :
  (s1 +:+ s2) +:+ s3 = s1 +:+ (s2 +:+ s3).
Proof.
  induction s1 as [|c s1 IH]; [done|].
  by rewrite !string_app_cons, IH.
Qed.

Lemma string_app_nil_r (s : string) : s +:+ "" = s.
Proof.
  induction s as [|c s IH]; [done|]. by rewrite string_app_cons, IH.
Qed.

Lemma join_fold sep rest :
  ∀ acc,
    fold_left (λ ret it, ret +:+ (sep +:+ it)) rest acc
    = acc +:+ match rest with
              | [] => ""
              | _ => sep +:+ join rest sep
              end.
Proof.
  induction rest as [|a rest IH]; intros acc; simpl.
  { by rewrite string_app_nil_r. }
  rewrite (IH (acc +:+ (sep +:+ a))).
  change (join (a :: rest) sep)
    with (fold_left (λ ret it, ret +:+ (sep +:+ it)) rest a).
  rewrite (IH a).
  by rewrite !string_app_assoc.
Qed.

(** X17: [join] puts the separator between the lines and nowhere else: the
    empty list gives the empty string, a line followed by more lines gives
    the line, the separator and the join of the rest, and the length of the
    result is the lengths of the lines plus one separator per gap. *)
Theorem join_separates sep :
  join [] sep = ""
  ∧ (∀ a, join [a] sep = a)
  ∧ (∀ a b rest, join (a :: b :: rest) sep = a +:+ sep +:+ join (b :: rest) sep)
  ∧ ∀ lines,
      String.length (join lines sep)
      = (sum_list (String.length <$> lines)
         + (length lines - 1) * String.length sep)%nat.
Proof.
  assert (∀ a b rest,
            join (a :: b :: rest) sep = a +:+ sep +:+ join (b :: rest) sep) as Hstep.
  { intros a b rest. unfold join at 1. by rewrite join_fold. }
  split_and!; [done | done | done |].
  induction lines as [|a [|b rest] IH].
  - done.
  - simpl. lia.
  - rewrite Hstep, !string_app_length, IH. simpl. lia.
Qed.

(** ** The media number of a commit *)

Lemma wrap_periodic bits z k : wrap bits (z + k * 2 ^ bits) = wrap bits z.
Proof.
  unfold wrap. f_equal.
  replace (z + k * 2 ^ bits + 2 ^ (bits - 1))
    with (z + 2 ^ (bits - 1) + k * 2 ^ bits) by lia.
  apply Z_mod_plus_full.
Qed.

(** X18: [PkgCommit] looks at the low 32 bits of the media number only.  When
    these are negative as an [int] it returns the error and does nothing
    else: the engine is not called and the session is untouched.  Media
    numbers that differ by a multiple of 2^32 are treated alike, so
    4294967296 commits all media like 0 does. *)
Theorem PkgCommit_media_number zy pkg media w :
  (wrap 32 media < 0 →
   PkgCommit zy pkg media w = (YCPError "Bad args to Pkg::PkgCommit", w))
  ∧ ∀ k, PkgCommit zy pkg (media + k * 2 ^ 32) w = PkgCommit zy pkg media w.
Proof.
  split.
  - intros Hneg. unfold PkgCommit.
    by destruct (Z.ltb_spec (wrap 32 media) 0); [|lia].
  - intros k. unfold PkgCommit. by rewrite wrap_periodic.
Qed.

(** ** The product file of the base product *)

Lemma substring_all s : String.substring 0 (String.length s) s = s.
Proof. induction s as [|c s IH]; simpl; [done | by rewrite IH]. Qed.

Lemma substring_skip p t m :
  String.substring (String.length p) m (p +:+ t) = String.substring 0 m t.
Proof.
  induction p as [|c p IH]; [done|].
  rewrite string_app_cons. simpl. apply IH.
Qed.

Lemma substring_split k :
  ∀ s, (k ≤ String.length s)%nat →
       s = String.substring 0 k s
           +:+ String.substring k (String.length s - k) s.
Proof.
  induction k as [|k IH]; intros s Hk.
  - rewrite Nat.sub_0_r, substring_all. by destruct s.
  - destruct s as [|c s]; simpl in *; [lia|].
    rewrite string_app_cons. f_equal. apply IH. lia.
Qed.

Lemma prefix_app p : ∀ s, String.prefix p s = true ↔ ∃ t, s = p +:+ t.
Proof.
  induction p as [|c p IH]; intros s.
  { destruct s; simpl; (split; [by eexists | done]). }
  destruct s as [|c' s]; simpl.
  { split; [done | by intros [t Ht]]. }
  destruct (Ascii.ascii_dec c c') as [->|Hne].
  - rewrite IH. split; intros [t Ht]; exists t.
    + by rewrite string_app_cons, Ht.
    + rewrite string_app_cons in Ht. congruence.
  - split; [done|]. intros [t Ht]. rewrite string_app_cons in Ht. congruence.
Qed.

Lemma suffix_app e r :
  (String.length e ≤ String.length r)%nat
  ∧ String.substring (String.length r - String.length e) (String.length e) r = e
  ↔ ∃ stem, r = stem +:+ e.
Proof.
  split.
  - intros [Hlen Hsub].
    exists (String.substring 0 (String.length r - String.length e) r).
    rewrite (substring_split (String.length r - String.length e) r) at 1 by lia.
    f_equal. rewrite <- Hsub at 3. f_equal. lia.
  - intros [stem ->]. rewrite string_app_length. split; [lia|].
    replace (String.length stem + String.length e - String.length e)%nat
      with (String.length stem) by lia.
    by rewrite substring_skip, substring_all.
Qed.

(** X19: the product file pattern matches exactly the paths that consist of
    "/etc/products.d/" followed by a name ending in ".prod", and what it
    captures is that name; [find_product_file] gives the name captured from
    the first path that matches, and the empty string when none does. *)
Theorem product_file_match :
  (∀ s what1,
     product_file_regex s = Some what1
     ↔ s = "/etc/products.d/" +:+ what1 ∧ ∃ stem, what1 = stem +:+ ".prod")
  ∧ (∀ files,
       Forall (λ f, product_file_regex f = None) files →
       find_product_file files = "")
  ∧ (∀ before f what1 after,
       Forall (λ f, product_file_regex f = None) before →
       product_file_regex f = Some what1 →
       find_product_file (before ++ f :: after) = what1).
Proof.
  split_and!.
  - intros s what1. unfold product_file_regex.
    destruct (String.prefix "/etc/products.d/" s) eqn:Hpre.
    + apply prefix_app in Hpre as [t ->].
      rewrite string_app_length.
      replace (String.length "/etc/products.d/" + String.length t
               - String.length "/etc/products.d/")%nat
        with (String.length t) by lia.
      rewrite substring_skip, substring_all.
      destruct (bool_decide (String.length ".prod" ≤ String.length t)%nat
                && bool_decide (String.substring
                                  (String.length t - String.length ".prod")
                                  (String.length ".prod") t = ".prod")) eqn:Hsuf.
      * apply andb_true_iff in Hsuf as [H1%bool_decide_eq_true
                                          H2%bool_decide_eq_true].
        split.
        -- intros [= <-]. split; [done|]. apply suffix_app. done.
        -- intros [Heq _]. f_equal. by apply (inj (String.append _)) in Heq.
      * split; [done|]. intros [Heq Hstem].
        apply (inj (String.append _)) in Heq. subst what1.
        apply suffix_app in Hstem as [H1 H2].
        apply andb_false_iff in Hsuf as [H%bool_decide_eq_false
                                        |H%bool_decide_eq_false]; done.
    + split; [done|]. intros [-> _].
      assert (String.prefix "/etc/products.d/" ("/etc/products.d/" +:+ what1)
              = true) as Htrue by (apply prefix_app; by eexists).
      congruence.
  - intros files Hall. induction Hall as [|f files Hf _ IH]; simpl; [done|].
    by rewrite Hf.
  - intros before f what1 after Hall Hf.
    induction Hall as [|g before Hg _ IH]; simpl.
    + by rewrite Hf.
    + by rewrite Hg.
Qed.

(** ** What the symlink refresh does to the file system *)

(** X20: the refresh makes no file-system call unless the base product has a
    reference package that is a package and carries a product file.  Then
    it unlinks the base link when [stat] finds it, and creates the link,
    pointing at the product file's name, only if the old link is gone (it
    was removed, or [stat] reported that it does not exist); after a failed
    unlink or another [stat] error nothing is created.  It answers true
    when there was nothing to do for lack of a product or reference
    package, or when the link was created. *)
Theorem CreateBaseProductSymlink_filesystem zy pkg w :
  let r := CreateBaseProductSymlink zy pkg w in
  let link := Pathname_cat zy (_target_root pkg) "/etc/products.d/baseproduct" in
  ∃ added,
    trace r.2 = trace w ++ added
    ∧ match base_product pkg ≫= referencePackage with
      | None => r.1 = true ∧ List.filter is_filesystem added = []
      | Some refpkg =>
          let product_file := find_product_file (sv_filenames refpkg) in
          if sv_isPackage refpkg && negb (bool_decide (product_file = "")) then
            let unlinks :=
              match sys_stat pkg link with
              | Ok => [EvUnlink link]
              | Errno _ => []
              end in
            let may_link :=
              match sys_stat pkg link with
              | Ok => bool_decide (sys_unlink pkg link = Ok)
              | Errno e => bool_decide (e = ENOENT)
              end in
            List.filter is_filesystem added
            = unlinks ++ (if may_link then [EvSymlink product_file link] else [])
            ∧ r.1 = may_link
                    && bool_decide (sys_symlink pkg product_file link = Ok)
          else r.1 = false ∧ List.filter is_filesystem added = []
      end.
Proof.
  cbv zeta. unfold CreateBaseProductSymlink. run.
  destruct (base_product pkg) as [product|]; simpl;
    [destruct (referencePackage product) as [refpkg|]; simpl|];
    [destruct (sv_isPackage refpkg); simpl| |];
    [case_decide; simpl| | |];
    [|destruct (sys_stat pkg _) as [|e]; simpl;
      [destruct (sys_unlink pkg _) as [|e']; simpl
      |case_decide; simpl]| | |];
    try (destruct (sys_symlink pkg _ _) as [|e'']; simpl).
  all: try rewrite bool_decide_eq_true_2 by done.
  all: try rewrite bool_decide_eq_false_2 by done.
  all: eexists; (split; [rewrite <- ?(assoc_L (++)); reflexivity|]); simpl;
    try done.
  all: case_bool_decide; simpl; first [done | exfalso; auto].
Qed.

(** ** Package lists *)

Lemma pkg2list_app packages item names_only :
  pkg2list packages item names_only = packages ++ pkg2list [] item names_only.
Proof. destruct item as [pkg|]; simpl; [by destruct names_only|]. by rewrite app_nil_r. Qed.

(** What [FilterPackages] appends for one selectable. *)
Lemma FilterPackages_loop_spec byAuto byApp byUser names_only proxy :
  ∀ packages,
    FilterPackages_loop byAuto byApp byUser names_only proxy packages
    = packages
      ++ flat_map (λ s,
           if bool_decide (sel_fate s = TO_INSTALL)
              && ((byAuto && bool_decide (sel_modifiedBy s = SOLVER))
                  || (byApp && (bool_decide (sel_modifiedBy s = APPL_HIGH)
                                || bool_decide (sel_modifiedBy s = APPL_LOW)))
                  || (byUser && bool_decide (sel_modifiedBy s = USER)))
           then pkg2list [] (sel_candidateObj s) names_only else []) proxy.
Proof.
  induction proxy as [|s proxy IH]; intros packages; simpl.
  { by rewrite app_nil_r. }
  rewrite IH. destruct (bool_decide (sel_fate s = TO_INSTALL)); simpl; [|done].
  match goal with |- context [if ?c then pkg2list packages _ _ else _] =>
    destruct c end; [|done].
  by rewrite (pkg2list_app packages), <- (assoc_L (++)).
Qed.

Lemma GetPackages_selected_spec names_only proxy :
  ∀ packages,
    GetPackages_loop "selected" names_only proxy packages
    = YCPList (packages
        ++ flat_map (λ s,
             if bool_decide (sel_fate s = TO_INSTALL)
             then pkg2list [] (sel_candidateObj s) names_only else []) proxy).
Proof.
  induction proxy as [|s proxy IH]; intros packages; simpl.
  { by rewrite app_nil_r. }
  repeat (case_decide; [done|]). case_decide; [|done].
  rewrite IH. f_equal.
  destruct (bool_decide (sel_fate s = TO_INSTALL)); simpl; [|done].
  destruct (sel_candidateObj s) as [pkg|] eqn:Hc; simpl.
  - destruct names_only; by rewrite <- (assoc_L (++)).
  - done.
Qed.

(** X21: [FilterPackages] lists candidates of selectables that are to be
    installed, by who asked for them.  With no origin chosen the list is
    empty; with all three chosen it is the list [GetPackages] gives for
    [`selected]; and that list is the lists for the solver, the application
    and the user taken together, each package in exactly one of them. *)
Theorem FilterPackages_by_origin names_only proxy :
  FilterPackages false false false names_only proxy = YCPList []
  ∧ FilterPackages true true true names_only proxy
    = GetPackages "selected" names_only proxy
  ∧ ∃ byAuto byApp byUser all,
      FilterPackages true false false names_only proxy = YCPList byAuto
      ∧ FilterPackages false true false names_only proxy = YCPList byApp
      ∧ FilterPackages false false true names_only proxy = YCPList byUser
      ∧ FilterPackages true true true names_only proxy = YCPList all
      ∧ all ≡ₚ byAuto ++ byApp ++ byUser.
Proof.
  unfold FilterPackages, GetPackages.
  rewrite GetPackages_selected_spec, !FilterPackages_loop_spec. simpl.
  split_and!.
  - f_equal. induction proxy as [|s proxy IH]; simpl; [done|].
    rewrite IH. by destruct (bool_decide _).
  - f_equal. induction proxy as [|s proxy IH]; simpl; [done|].
    rewrite IH. f_equal.
    destruct (bool_decide (sel_fate s = TO_INSTALL)); simpl; [|done].
    by destruct (sel_modifiedBy s).
  - do 4 eexists. split_and!; [done..|].
    induction proxy as [|s proxy IH]; cbn [flat_map]; [done|].
    rewrite IH. generalize (pkg2list [] (sel_candidateObj s) names_only) as p.
    intros p.
    destruct (bool_decide (sel_fate s = TO_INSTALL)); simpl; [|done].
    destruct (sel_modifiedBy s); simpl; rewrite <- ?(assoc_L (++)).
    + done.
    + by rewrite (Permutation_app_swap_app _ p).
    + by rewrite (Permutation_app_swap_app _ p).
    + by rewrite !(Permutation_app_swap_app _ p).
Qed.

(** X22: a symbol that [GetPackages] does not know is noticed only inside
    the loop over the selectables: with at least one package selectable the
    answer is the error "Wrong parameter for Pkg::GetPackages", with none
    it is the empty list. *)
Theorem GetPackages_wrong_parameter which names_only proxy :
  which ∉ ["installed"; "selected"; "removed"; "available"; "locked"; "taboo"] →
  GetPackages which names_only proxy
  = match proxy with
    | [] => YCPList []
    | _ :: _ => YCPError "Wrong parameter for Pkg::GetPackages"
    end.
Proof.
  intros Hwhich. destruct proxy as [|s proxy]; [done|].
  unfold GetPackages. simpl.
  repeat (case_decide; [exfalso; apply Hwhich; subst which; set_solver|]).
  done.
Qed.

Lemma GetPackages_wrong_parameter_witness :
  GetPackages "all" true
    [mkSelectable TO_INSTALL USER S_Install
       (Some (mkPackage "vim" "7.2" "1" "x86_64" 1 10 20 "dvd")) None]
  = YCPError "Wrong parameter for Pkg::GetPackages".
Proof.
  apply (GetPackages_wrong_parameter "all" true
           [mkSelectable TO_INSTALL USER S_Install
              (Some (mkPackage "vim" "7.2" "1" "x86_64" 1 10 20 "dvd")) None]).
  intros H. repeat (apply elem_of_cons in H as [H|H]; [discriminate|]).
  by apply elem_of_nil in H.
Defined.

(** ** Resetting the selection *)

Section ResetProperties.
Context (resetTransact : TransactByValue → ResStatus → bool * ResStatus).

(** Every item is asked once, in the pass of its kind; selections have no
    pass. *)
Lemma ResetAll_items level proxy :
  ResetAll resetTransact level proxy
  = map (λ s, if decide (pi_kind s = KSelection) then s
              else set_status (resetTransact level (pi_status s)).2 s) proxy.
Proof.
  unfold ResetAll, ResetAllKind. rewrite !map_map. apply map_ext.
  intros [k n a e st]. by destruct k.
Qed.

(** A reset asked below the authority of the mark changes nothing. *)
Hypothesis reset_refused :
  ∀ causer st,
    transact st = true →
    authority_rank causer < authority_rank (authority st) →
    resetTransact causer st = (false, st).

(** A reset asked by the authority of the mark, or a higher one, leaves
    the transact flag cleared. *)
Hypothesis reset_clears :
  ∀ causer st,
    authority_rank (authority st) ≤ authority_rank causer →
    transact (resetTransact causer st).2 = false.


End ResetProperties.


(** ** Licences *)

Lemma PkgGetLicensesToConfirm_loop_spec selectables packages :
  ∀ ret p,
    PkgGetLicensesToConfirm_loop selectables packages ret !! p
    = if decide (p ∈ packages ∧ PkgGetLicenseToConfirm selectables p ≠ "")
      then Some (PkgGetLicenseToConfirm selectables p)
      else ret !! p.
Proof.
  induction packages as [|q packages IH]; intros ret p;
    cbn [PkgGetLicensesToConfirm_loop].
  { rewrite decide_False; [done|]. intros [H _]. by apply elem_of_nil in H. }
  rewrite IH.
  destruct (decide (p ∈ packages ∧ _)) as [[Hin Hl]|Hno].
  { rewrite decide_True; [done|]. split; [by apply elem_of_cons; right | done]. }
  destruct (decide (p = q)) as [->|Hne].
  - case_bool_decide as Hq; simpl.
    + rewrite decide_False; [done|]. intros [_ ?]. done.
    + rewrite decide_True by (split; [apply elem_of_cons; by left | done]).
      by simplify_map_eq.
  - rewrite decide_False.
    2: { intros [Hin Hl]. apply Hno. split; [|done].
         apply elem_of_cons in Hin as [?|?]; done. }
    case_bool_decide; simpl; [done|]. by simplify_map_eq.
Qed.

(** X24: the map of [PkgGetLicensesToConfirm] has exactly the packages of
    the list for which [PkgGetLicenseToConfirm] returns a text that is not
    empty, each with that text; a package that is unknown, not to be
    installed, already confirmed or without a licence has no entry. *)
Theorem PkgGetLicensesToConfirm_lookup selectables packages p licence :
  PkgGetLicensesToConfirm selectables packages !! p = Some licence
  ↔ p ∈ packages
    ∧ licence = PkgGetLicenseToConfirm selectables p ∧ licence ≠ "".
Proof.
  unfold PkgGetLicensesToConfirm. rewrite PkgGetLicensesToConfirm_loop_spec.
  case_decide as H.
  - destruct H as [Hin Hl]. split.
    + intros [= <-]. done.
    + by intros (_ & -> & _).
  - rewrite lookup_empty. split; [done|].
    intros (Hin & -> & Hl). destruct H. done.
Qed.

Lemma PkgGetLicenseToConfirm_other selectables p s q :
  q ≠ p →
  PkgGetLicenseToConfirm (<[p := s]> selectables) q
  = PkgGetLicenseToConfirm selectables q.
Proof. intros Hne. unfold PkgGetLicenseToConfirm. by simplify_map_eq. Qed.

(** X25: once [PkgMarkLicenseConfirmed] has answered true for a package,
    that package has no licence left to confirm and marking it again
    answers false and changes nothing; the licences of the other packages
    are asked for as before, so the map of licences to confirm is the
    earlier one without this package. *)
Theorem PkgMarkLicenseConfirmed_confirms selectables package selectables' :
  PkgMarkLicenseConfirmed selectables package = (true, selectables') →
  PkgGetLicenseToConfirm selectables' package = ""
  ∧ PkgMarkLicenseConfirmed selectables' package = (false, selectables')
  ∧ ∀ packages,
      PkgGetLicensesToConfirm selectables' packages
      = delete package (PkgGetLicensesToConfirm selectables packages).
Proof.
  unfold PkgMarkLicenseConfirmed.
  case_bool_decide as Hp; simpl; [done|].
  destruct (selectables !! package) as [s|] eqn:Hs; [|done].
  destruct (lv_toInstall s && negb (lv_hasLicenceConfirmed s)) eqn:Hc;
    [|done].
  intros [= <-].
  assert (PkgGetLicenseToConfirm
            (<[package := mkLicenceView (lv_toInstall s) true
                            (lv_licenseToConfirm s)]> selectables) package = "")
    as Hnone.
  { unfold PkgGetLicenseToConfirm. rewrite bool_decide_eq_false_2 by done.
    simplify_map_eq. by rewrite andb_false_r. }
  split_and!; [done| |].
  - simplify_map_eq. by rewrite andb_false_r.
  - intros packages. apply map_eq. intros q.
    unfold PkgGetLicensesToConfirm.
    destruct (decide (q = package)) as [->|Hne].
    + rewrite PkgGetLicensesToConfirm_loop_spec, Hnone.
      rewrite decide_False by (by intros [_ ?]). by simplify_map_eq.
    + rewrite lookup_delete_ne by done.
      rewrite !PkgGetLicensesToConfirm_loop_spec.
      by rewrite PkgGetLicenseToConfirm_other.
Qed.

Lemma PkgMarkLicenseConfirmed_confirms_witness :
  let selectables : gmap string LicenceView :=
    {[ "vim" := mkLicenceView true false (Some "Charityware") ]} in
  let selectables' : gmap string LicenceView :=
    {[ "vim" := mkLicenceView true true (Some "Charityware") ]} in
  PkgMarkLicenseConfirmed selectables "vim" = (true, selectables')
  ∧ PkgGetLicenseToConfirm selectables "vim" = "Charityware"
  ∧ PkgGetLicenseToConfirm selectables' "vim" = ""
  ∧ PkgMarkLicenseConfirmed selectables' "vim" = (false, selectables')
  ∧ ∀ packages,
      PkgGetLicensesToConfirm selectables' packages
      = delete "vim" (PkgGetLicensesToConfirm selectables packages).
Proof.
  cbv zeta.
  assert (PkgMarkLicenseConfirmed
            {[ "vim" := mkLicenceView true false (Some "Charityware") ]} "vim"
          = (true, {[ "vim" := mkLicenceView true true (Some "Charityware") ]}))
    as Hmark.
  { unfold PkgMarkLicenseConfirmed. simpl. simplify_map_eq.
    by rewrite insert_singleton. }
  split; [exact Hmark|]. split; [by vm_compute|].
  exact (PkgMarkLicenseConfirmed_confirms _ _ _ Hmark).
Defined.

(** ** Packages per medium *)

Lemma sum_app (l1 l2 : list Z) :
  foldr Z.add 0 (l1 ++ l2) = foldr Z.add 0 l1 + foldr Z.add 0 l2.
Proof. induction l1 as [|x l1 IH]; simpl; lia. Qed.

Lemma sum_replicate_0 n : foldr Z.add 0 (replicate n 0) = 0.
Proof. induction n as [|n IH]; simpl; lia. Qed.

Lemma sum_alter (f : Z → Z) l i x :
  l !! i = Some x →
  foldr Z.add 0 (alter f i l) = foldr Z.add 0 l - x + f x.
Proof.
  revert i. induction l as [|y l IH]; intros [|i] Hi; simplify_eq/=; [lia|].
  rewrite (IH i Hi). lia.
Qed.

Lemma sum_nonneg l : Forall (λ n, 0 ≤ n) l → 0 ≤ foldr Z.add 0 l.
Proof. induction 1; simpl; lia. Qed.

Lemma sum_ge_entry l i x :
  Forall (λ n, 0 ≤ n) l → l !! i = Some x → x ≤ foldr Z.add 0 l.
Proof.
  intros Hl. revert i. induction Hl as [|y l Hy Hl IH]; intros [|i] Hi;
    simplify_eq/=.
  - pose proof (sum_nonneg l Hl). lia.
  - specialize (IH i Hi). lia.
Qed.

(** The vector update away from the limits of the machine integers. *)
Lemma add_to_medium_spec medium size ref :
  1 ≤ medium < 2 ^ 31 →
  Z.of_nat (length ref) < 2 ^ 31 →
  Forall (λ n, 0 ≤ n) ref →
  0 ≤ size →
  foldr Z.add 0 ref + size < 2 ^ 63 →
  foldr Z.add 0 (add_to_medium medium size ref) = foldr Z.add 0 ref + size
  ∧ Forall (λ n, 0 ≤ n) (add_to_medium medium size ref)
  ∧ Z.of_nat (length (add_to_medium medium size ref)) < 2 ^ 31.
Proof.
  intros Hm Hlen Hnn Hsize Hsum. unfold add_to_medium.
  rewrite wrap_small by lia.
  set (ref' := if 0 <? _ then _ else ref).
  assert (Forall (λ n, 0 ≤ n) ref'
          ∧ foldr Z.add 0 ref' = foldr Z.add 0 ref
          ∧ (Z.to_nat (medium - 1) < length ref')%nat
          ∧ Z.of_nat (length ref') < 2 ^ 31) as (Hnn' & Hsum' & Hidx & Hlen').
  { subst ref'. case_match eqn:Hadd.
    - apply Z.ltb_lt in Hadd. split_and!.
      + apply Forall_app. split; [done|]. apply Forall_replicate. lia.
      + rewrite sum_app, sum_replicate_0. lia.
      + rewrite length_app, length_replicate. lia.
      + rewrite length_app, length_replicate. lia.
    - apply Z.ltb_ge in Hadd. split_and!; [done | done | lia | done]. }
  clearbody ref'.
  destruct (lookup_lt_is_Some_2 _ _ Hidx) as [x Hx].
  pose proof (sum_ge_entry _ _ _ Hnn' Hx) as Hle.
  assert (0 ≤ x) as Hx0.
  { eapply (proj1 (Forall_lookup _ _) Hnn'). exact Hx. }
  split_and!.
  - rewrite (sum_alter _ _ _ _ Hx), wrap_small by lia. lia.
  - apply Forall_alter; [done|]. intros y Hy. rewrite wrap_small; [lia..|].
    rewrite Hx in Hy. simplify_eq. lia.
  - by rewrite length_alter.
Qed.

Lemma result_at_entries (P : list Z → Prop) id f result :
  (∀ v, v = [] ∨ v ∈ result.*2 → P (f v)) →
  Forall P result.*2 →
  Forall P (result_at id f result).*2.
Proof.
  intros Hf. induction result as [|[k v] result IH]; simpl; intros Hres.
  { repeat constructor. apply Hf. by left. }
  inversion Hres as [|? ? Hv Hrest]; subst.
  repeat case_match; simpl.
  - constructor; [apply Hf; by left | done].
  - constructor; [|done]. apply Hf. right. simpl. apply elem_of_cons. by left.
  - constructor; [done|]. apply IH; [|done].
    intros w [->|Hw]; apply Hf; [by left|]. right. simpl.
    apply elem_of_cons. by right.
Qed.

Lemma result_at_total id f result d :
  (∀ v, v = [] ∨ v ∈ result.*2 →
        foldr Z.add 0 (f v) = foldr Z.add 0 v + d) →
  foldr Z.add 0 (concat (result_at id f result).*2)
  = foldr Z.add 0 (concat result.*2) + d.
Proof.
  intros Hf. induction result as [|[k v] result IH]; simpl.
  { rewrite app_nil_r, Hf by (by left). done. }
  repeat case_match; simpl; rewrite !sum_app.
  - rewrite Hf by (by left). simpl. lia.
  - rewrite Hf; [lia|]. right. simpl. apply elem_of_cons. by left.
  - change (foldr Z.add 0 v
            + foldr Z.add 0 (concat (result_at id f result).*2)
            = foldr Z.add 0 v + foldr Z.add 0 (concat result.*2) + d).
    rewrite IH; [lia|].
    intros w [->|Hw]; apply Hf; [by left|]. right. simpl.
    apply elem_of_cons. by right.
Qed.

Lemma total_ge_entry (result : list (Z * list Z)) v :
  Forall (Forall (λ n, 0 ≤ n)) result.*2 →
  v ∈ result.*2 →
  foldr Z.add 0 v ≤ foldr Z.add 0 (concat result.*2).
Proof.
  induction result as [|[k u] result IH]; intros Hres Hv.
  { by apply elem_of_nil in Hv. }
  rewrite fmap_cons in Hres, Hv. rewrite fmap_cons. cbn [concat snd] in *.
  inversion Hres as [|? ? Hu Hrest]; subst. rewrite sum_app.
  apply elem_of_cons in Hv as [->|Hv].
  - assert (0 ≤ foldr Z.add 0 (concat result.*2)); [|lia].
    apply sum_nonneg. by apply Forall_concat.
  - specialize (IH Hrest Hv). pose proof (sum_nonneg u Hu). lia.
Qed.

Section MediaCount.
Context (repos : list YRepo)
        (logFindRepository : Z → option YRepo).

(** The map starts with empty vectors only. *)
Lemma init_source_empty ids :
  ∀ st,
    Forall (λ v, v = []) st.1.*2 →
    Forall (λ v, v = []) (foldl (init_source logFindRepository) st ids).1.*2.
Proof.
  induction ids as [|id ids IH]; intros st Hst; [done|]. simpl.
  apply IH. unfold init_source. case_match; [|done]. simpl.
  by apply result_at_entries.
Qed.

(** What one selectable adds to the counts. *)
Lemma count_package_step download_size source_map result s :
  (∀ pkg, sel_candidateObj s = Some pkg → 0 ≤ pkg_mediaNr pkg < 2 ^ 31) →
  Forall (λ v, Forall (λ n, 0 ≤ n) v ∧ Z.of_nat (length v) < 2 ^ 31)
    result.*2 →
  foldr Z.add 0 (concat result.*2) + 1 < 2 ^ 63 →
  let result' := count_package false download_size source_map result s in
  Forall (λ v, Forall (λ n, 0 ≤ n) v ∧ Z.of_nat (length v) < 2 ^ 31)
    result'.*2
  ∧ foldr Z.add 0 (concat result'.*2)
    = foldr Z.add 0 (concat result.*2)
      + (if bool_decide (sel_fate s = TO_INSTALL
                         ∧ is_Some (sel_candidateObj s)) then 1 else 0).
Proof.
  intros Hmedium Hres Hsum. cbv zeta. unfold count_package.
  case_bool_decide as Hfate; simpl.
  2: { rewrite bool_decide_eq_false_2 by (by intros [? _]).
       split; [done | lia]. }
  destruct (sel_candidateObj s) as [pkg|] eqn:Hc.
  2: { rewrite bool_decide_eq_false_2 by (by intros [_ [? ?]]).
       split; [done | lia]. }
  rewrite bool_decide_eq_true_2 by eauto.
  specialize (Hmedium pkg eq_refl).
  set (medium := if pkg_mediaNr pkg =? 0 then 1 else pkg_mediaNr pkg).
  assert (1 ≤ medium < 2 ^ 31) as Hm.
  { subst medium. case_match eqn:E; [lia|]. apply Z.eqb_neq in E. lia. }
  rewrite (proj2 (Z.ltb_lt 0 medium)) by lia.
  assert (Forall (Forall (λ n, 0 ≤ n)) result.*2) as Hnn.
  { eapply Forall_impl; [exact Hres|]. by intros v [? _]. }
  assert (∀ v, v = [] ∨ v ∈ result.*2 →
            foldr Z.add 0 (add_to_medium medium 1 v) = foldr Z.add 0 v + 1
            ∧ Forall (λ n, 0 ≤ n) (add_to_medium medium 1 v)
            ∧ Z.of_nat (length (add_to_medium medium 1 v)) < 2 ^ 31) as Hadd.
  { intros v Hv. apply add_to_medium_spec; [done| | |lia|].
    - destruct Hv as [->|Hv]; [simpl; lia|].
      by apply (proj1 (Forall_forall _ _) Hres v).
    - destruct Hv as [->|Hv]; [done|]. by apply (proj1 (Forall_forall _ _) Hnn v).
    - destruct Hv as [->|Hv]; [simpl; lia|].
      pose proof (total_ge_entry _ _ Hnn Hv). lia. }
  split.
  - apply result_at_entries; [|done]. intros v Hv.
    destruct (Hadd v Hv) as (_ & ? & ?). done.
  - apply result_at_total. intros v Hv. by destruct (Hadd v Hv) as (? & _).
Qed.

Lemma count_package_total download_size source_map proxy :
  Forall (λ s, ∀ pkg, sel_candidateObj s = Some pkg →
                      0 ≤ pkg_mediaNr pkg < 2 ^ 31) proxy →
  ∀ result,
    Forall (λ v, Forall (λ n, 0 ≤ n) v ∧ Z.of_nat (length v) < 2 ^ 31)
      result.*2 →
    foldr Z.add 0 (concat result.*2) + Z.of_nat (length proxy) < 2 ^ 63 →
    let result' :=
      foldl (count_package false download_size source_map) result proxy in
    Forall (Forall (λ n, 0 ≤ n)) result'.*2
    ∧ foldr Z.add 0 (concat result'.*2)
      = foldr Z.add 0 (concat result.*2)
        + Z.of_nat (length (filter (λ s, sel_fate s = TO_INSTALL
                                         ∧ is_Some (sel_candidateObj s)) proxy)).
Proof.
  induction 1 as [|s proxy Hs Hproxy IH]; intros result Hres Hsum; cbv zeta.
  { simpl. split; [|lia]. eapply Forall_impl; [exact Hres|]. by intros v [? _]. }
  cbn [foldl]. cbn [length] in Hsum.
  destruct (count_package_step download_size source_map result s Hs Hres)
    as [Hres' Hsum']; [lia|].
  destruct (IH _ Hres') as [Hfin Htot].
  { rewrite Hsum'. case_bool_decide; lia. }
  split; [done|]. rewrite Htot, Hsum', filter_cons.
  case_bool_decide as Hsel.
  - rewrite decide_True by done. simpl. lia.
  - rewrite decide_False by done. lia.
Qed.

(** X26: [PkgMediaCount] counts every package selectable that is to be
    installed and has a candidate once, whatever repository and medium it
    comes from: the numbers of the returned lists are never negative and
    add up to the number of such selectables.  Media numbers are below
    2^31 and there are fewer than 2^63 selectables, so that no machine
    integer wraps. *)
Theorem PkgMediaCount_total toString proxy w :
  Forall (λ s, ∀ pkg, sel_candidateObj s = Some pkg →
                      0 ≤ pkg_mediaNr pkg < 2 ^ 31) proxy →
  Z.of_nat (length proxy) < 2 ^ 63 →
  ∃ counts : list (list Z),
    (PkgMediaCount repos logFindRepository toString proxy w).1
    = YCPList (map (λ source, YCPList (map YCPInteger source)) counts)
    ∧ Forall (Forall (λ n, 0 ≤ n)) counts
    ∧ foldr Z.add 0 (concat counts)
      = Z.of_nat (length (filter (λ s, sel_fate s = TO_INSTALL
                                       ∧ is_Some (sel_candidateObj s)) proxy)).
Proof.
  intros Hmedium Hlen. unfold PkgMediaCount, PkgMediaSizesOrCount. run.
  set (st := foldl (init_source logFindRepository) ([], ∅) (source_ids repos 0)).
  pose proof (init_source_empty (source_ids repos 0) ([], ∅)) as Hinit.
  fold st in Hinit. specialize (Hinit (Forall_nil_2 _)).
  assert (foldr Z.add 0 (concat st.1.*2) = 0) as Hzero.
  { clear -Hinit. induction Hinit as [|v vs -> _ IH]; [done|]. simpl in *. done. }
  destruct (count_package_total false st.2 proxy Hmedium st.1) as [Hnn Htot].
  { eapply Forall_impl; [exact Hinit|]. intros v ->. simpl. split; [done|lia]. }
  { lia. }
  eexists (_.*2). split_and!.
  - by rewrite map_map.
  - exact Hnn.
  - rewrite Htot, Hzero. lia.
Qed.

End MediaCount.

Lemma PkgMediaCount_total_witness :
  let proxy :=
    [mkSelectable TO_INSTALL USER S_Install
       (Some (mkPackage "vim" "7.2" "1" "x86_64" 2 10 20 "dvd")) None;
     mkSelectable UNMODIFIED SOLVER S_NoInst
       (Some (mkPackage "emacs" "22" "1" "x86_64" 1 30 40 "dvd")) None;
     mkSelectable TO_INSTALL SOLVER S_AutoInstall
       (Some (mkPackage "ed" "1" "1" "x86_64" 0 5 6 "net")) None] in
  ∃ counts : list (list Z),
    (PkgMediaCount [mkYRepo true false "dvd"; mkYRepo false false "net"]
       (λ id, [mkYRepo true false "dvd"; mkYRepo false false "net"]
                !! Z.to_nat id)
       (λ _, "") proxy (with_pool [])).1
    = YCPList (map (λ source, YCPList (map YCPInteger source)) counts)
    ∧ Forall (Forall (λ n, 0 ≤ n)) counts
    ∧ foldr Z.add 0 (concat counts)
      = Z.of_nat (length (filter (λ s, sel_fate s = TO_INSTALL
                                       ∧ is_Some (sel_candidateObj s)) proxy)).
Proof.
  apply (PkgMediaCount_total [mkYRepo true false "dvd"; mkYRepo false false "net"]).
  - repeat (apply Forall_cons_2; [intros pkg [= <-]; simpl; lia|]).
    apply Forall_nil_2.
  - simpl. lia.
Defined.
